(** * Ember Sentinel: the location-detail view and the pending-requests view

  A shallow embedding of the two page components of the dashboard,
  [LocationDetails] and [PendingLocationRequests], and of the properties
  the specification states about them.

  - JavaScript numbers are IEEE binary64 values: [float], with the
    comparisons of [PrimFloat] ([value >= d] is [d <=? value]).
  - JavaScript strings are [string]; [T | null] is [option T].
  - The remote service (tables, authentication, telemetry function) is an
    explicit part of the state the handlers run on. *)

From Stdlib Require Import Floats.
From stdpp Require Import base option list strings sorting.

Open Scope string_scope.
Open Scope list_scope.

(** ** JavaScript values shared by both views *)

Module Js.

(** The type [number]. *)
Abbreviation number := float (only parsing).

(** [a >= b] on numbers: false as soon as one side is NaN. *)
Definition geq (a b : number) : bool := (b <=? a)%float.

(** [a < b] on numbers. *)
Definition lt (a b : number) : bool := (a <? b)%float.

(** Truthiness of a [string | null]: [null] and the empty string are falsy. *)
Definition truthy (s : option string) : bool :=
  match s with
  | None => false
  | Some EmptyString => false
  | Some _ => true
  end.

(** JSON values, as the request bodies and the answers hold them. *)
#[warnings="-register-all"]
Inductive json : Type :=
| JNull
| JBool (b : bool)
| JStr (s : string)
| JNum (n : number)
| JArr (items : list json)
| JObj (fields : list (string * json)).

(** Truthiness of a value: [null], [false], the empty string, zero and NaN
    are falsy, every other value is truthy. *)
Definition to_boolean (j : json) : bool :=
  match j with
  | JNull => false
  | JBool b => b
  | JStr EmptyString => false
  | JStr _ => true
  | JNum n => negb ((n =? 0)%float || is_nan n)
  | JArr _ | JObj _ => true
  end.

(** [j === null]. *)
Definition is_null (j : json) : bool :=
  match j with
  | JNull => true
  | _ => false
  end.

(** A [string | null] as a JSON value. *)
Definition of_nullable (s : option string) : json :=
  match s with
  | Some x => JStr x
  | None => JNull
  end.

(** The keys of an object, in the order they were written. *)
Definition keys (j : json) : list string :=
  match j with
  | JObj fields => fields.*1
  | _ => []
  end.

(** Property access [j.k]; [None] stands for [undefined]. *)
Fixpoint assoc (k : string) (fields : list (string * json)) : option json :=
  match fields with
  | [] => None
  | (k', v) :: rest => if String.eqb k k' then Some v else assoc k rest
  end.

Definition get (k : string) (j : json) : option json :=
  match j with
  | JObj fields => assoc k fields
  | _ => None
  end.

End Js.

(** ** Threshold classification (LocationDetails, [getSensorStatus]) *)

Module Sensor.

Record Thresholds := { warning : Js.number; danger : Js.number }.

Definition getSensorStatus (value : Js.number) (thresholds : Thresholds) : string :=
  if Js.geq value (danger thresholds) then "danger"
  else if Js.geq value (warning thresholds) then "warning"
  else "normal".

(** The threshold pairs the view passes for each card. *)
Definition flame_thresholds := {| warning := 20; danger := 50 |}.
Definition gas_thresholds := {| warning := 300; danger := 500 |}.
Definition temperature_thresholds := {| warning := 40; danger := 60 |}.
Definition humidity_thresholds := {| warning := 70; danger := 85 |}.

(** The classification as the specification words it: "danger" when
    [v >= danger], "warning" when [warning <= v < danger], "normal"
    otherwise. *)
Definition spec_classification (v : Js.number) (t : Thresholds) : string :=
  if Js.geq v (danger t) then "danger"
  else if Js.geq v (warning t) && Js.lt v (danger t) then "warning"
  else "normal".

(** A threshold pair whose danger level is not a number. *)
Definition open_ended : Thresholds := {| warning := 0; danger := nan |}.

End Sensor.

(** ** Handlers as state transformers that may throw

  An [async] handler is run to completion on a state [S]; an awaited
  remote call is one step of it.  [Throw e] is a pending exception. *)

Module Eff.

(** What a [throw] carries: an [Error] instance ([new Error(message)]), or
    an error object of the client library that is not one. *)
Inductive Exn : Type :=
| JsError (message : string)
| RemoteError (message : string).

Inductive Res (A : Type) : Type :=
| Ok (a : A)
| Throw (e : Exn).
Arguments Ok {A} a.
Arguments Throw {A} e.

Definition M (S A : Type) : Type := S → Res A * S.

#[export] Instance M_ret {S} : MRet (M S) := λ A a s, (Ok a, s).

#[export] Instance M_bind {S} : MBind (M S) := λ A B f m s,
  match m s with
  | (Ok a, s') => f a s'
  | (Throw e, s') => (Throw e, s')
  end.

Definition throw {S A} (e : Exn) : M S A := λ s, (Throw e, s).

Definition gets {S A} (f : S → A) : M S A := λ s, (Ok (f s), s).

Definition modify {S} (f : S → S) : M S unit := λ s, (Ok tt, f s).

(** [try { body } catch (error) { handler } finally { final }]: the
    handler runs on a throw of the body, [final] runs in every case, and a
    throw of [final] replaces the completion reached before it. *)
Definition try_catch_finally {S} (body : M S unit) (handler : Exn → M S unit)
    (final : M S unit) : M S unit := λ s,
  let '(r, s1) :=
    match body s with
    | (Ok _, s') => (Ok tt, s')
    | (Throw e, s') => handler e s'
    end in
  match final s1 with
  | (Ok _, s2) => (r, s2)
  | (Throw e, s2) => (Throw e, s2)
  end.

(** [try { body } catch (error) { handler }]. *)
Definition try_catch {S} (body : M S unit) (handler : Exn → M S unit) : M S unit :=
  try_catch_finally body handler (mret tt).

(** The state a computation ends in. *)
Definition exec {S A} (m : M S A) (s : S) : S := (m s).2.

End Eff.
Import Eff.

(** A transient notification ([toast({...})]). *)
Record Toast := { title : string; description : string; variant : option string }.

(** ** The pending-requests view (src/pages/PendingLocationRequests.tsx) *)

Module Req.

(** A row of [location_requests].  The interface [LocationRequest] lists
    the first twelve fields; [reviewed_by] and [reviewed_at] are the two
    further columns the reviewer's update writes. *)
Record t := {
  id : string;
  location_name : string;
  region : string;
  latitude : Js.number;
  longitude : Js.number;
  thingspeak_channel_id : string;
  thingspeak_read_key : string;
  reason : option string;
  status : option string;
  created_at : string;
  user_id : string;
  user_email : option string;
  reviewed_by : option string;
  reviewed_at : option string }.

(** The object given to [.update(...)]. *)
Record Patch := {
  p_status : string;
  p_reviewed_by : string;
  p_reviewed_at : string }.

Definition apply (p : Patch) (r : t) : t :=
  {| id := id r; location_name := location_name r; region := region r;
     latitude := latitude r; longitude := longitude r;
     thingspeak_channel_id := thingspeak_channel_id r;
     thingspeak_read_key := thingspeak_read_key r;
     reason := reason r; status := Some (p_status p);
     created_at := created_at r; user_id := user_id r;
     user_email := user_email r;
     reviewed_by := Some (p_reviewed_by p);
     reviewed_at := Some (p_reviewed_at p) |}.

End Req.

Module Loc.

(** The object given to [.insert(...)] on [locations]: the columns the
    client supplies.  The remaining columns of a row are filled in by the
    database and are not part of this model. *)
Record Insert := {
  name : string;
  region : string;
  latitude : Js.number;
  longitude : Js.number;
  thingspeak_channel_id : string;
  thingspeak_read_key : string;
  status : string }.

End Loc.

Module Pending.

(** The signed-in user, as far as the handlers read it ([user.id]). *)
Record User := { uid : string }.

(** A call the client issues to the hosted service. *)
Inductive Call : Type :=
| GetUser
| Select (table : string) (eq_column eq_value : string) (order_by : string)
| Insert (table : string) (row : Loc.Insert)
| Update (table : string) (patch : Req.Patch) (eq_column eq_value : string).

Definition is_write (c : Call) : bool :=
  match c with
  | Insert _ _ | Update _ _ _ _ => true
  | GetUser | Select _ _ _ _ => false
  end.

Definition is_insert_into (table : string) (c : Call) : bool :=
  match c with
  | Insert t _ => String.eqb t table
  | _ => false
  end.

Definition is_update_of (table : string) (c : Call) : bool :=
  match c with
  | Update t _ _ _ => String.eqb t table
  | _ => false
  end.

(** What the select of the pending requests resolves to, read as
    [{ data, error }]. *)
Definition Reply : Type := option (list Req.t) * option Exn.

(** The hosted service and the view.  [faults] scripts the outcome of the
    table calls to come, oldest first: [Some msg] makes the next call
    return the error [msg] and leave the tables as they are, [None] (or an
    exhausted script) lets it succeed.  [calls] records every call issued,
    oldest first.  [in_flight] holds the answers of the selects that a
    [fetchPendingRequests()] whose promise was dropped is still waiting
    for, oldest first; the service evaluates a select when it is issued. *)
Record World := {
  locations : list Loc.Insert;
  location_requests : list Req.t;
  session : option User;
  clock : string;
  faults : list (option string);
  calls : list Call;
  in_flight : list Reply;
  requests : list Req.t;
  isLoading : bool;
  processingId : option string;
  toasts : list Toast;
  console : list (string * Exn) }.

Definition set_locations (x : list Loc.Insert) (w : World) : World :=
  {| locations := x; location_requests := location_requests w;
     session := session w; clock := clock w; faults := faults w;
     calls := calls w; in_flight := in_flight w; requests := requests w;
     isLoading := isLoading w; processingId := processingId w;
     toasts := toasts w; console := console w |}.

Definition set_location_requests (x : list Req.t) (w : World) : World :=
  {| locations := locations w; location_requests := x; session := session w;
     clock := clock w; faults := faults w; calls := calls w;
     in_flight := in_flight w; requests := requests w;
     isLoading := isLoading w; processingId := processingId w;
     toasts := toasts w; console := console w |}.

Definition set_faults (x : list (option string)) (w : World) : World :=
  {| locations := locations w; location_requests := location_requests w;
     session := session w; clock := clock w; faults := x; calls := calls w;
     in_flight := in_flight w; requests := requests w;
     isLoading := isLoading w; processingId := processingId w;
     toasts := toasts w; console := console w |}.

Definition set_calls (x : list Call) (w : World) : World :=
  {| locations := locations w; location_requests := location_requests w;
     session := session w; clock := clock w; faults := faults w; calls := x;
     in_flight := in_flight w; requests := requests w;
     isLoading := isLoading w; processingId := processingId w;
     toasts := toasts w; console := console w |}.

Definition set_in_flight (x : list Reply) (w : World) : World :=
  {| locations := locations w; location_requests := location_requests w;
     session := session w; clock := clock w; faults := faults w;
     calls := calls w; in_flight := x; requests := requests w;
     isLoading := isLoading w; processingId := processingId w;
     toasts := toasts w; console := console w |}.

Definition set_requests (x : list Req.t) (w : World) : World :=
  {| locations := locations w; location_requests := location_requests w;
     session := session w; clock := clock w; faults := faults w;
     calls := calls w; in_flight := in_flight w; requests := x;
     isLoading := isLoading w; processingId := processingId w;
     toasts := toasts w; console := console w |}.

Definition set_isLoading (x : bool) (w : World) : World :=
  {| locations := locations w; location_requests := location_requests w;
     session := session w; clock := clock w; faults := faults w;
     calls := calls w; in_flight := in_flight w; requests := requests w;
     isLoading := x; processingId := processingId w; toasts := toasts w;
     console := console w |}.

Definition set_processingId (x : option string) (w : World) : World :=
  {| locations := locations w; location_requests := location_requests w;
     session := session w; clock := clock w; faults := faults w;
     calls := calls w; in_flight := in_flight w; requests := requests w;
     isLoading := isLoading w; processingId := x; toasts := toasts w;
     console := console w |}.

Definition set_toasts (x : list Toast) (w : World) : World :=
  {| locations := locations w; location_requests := location_requests w;
     session := session w; clock := clock w; faults := faults w;
     calls := calls w; in_flight := in_flight w; requests := requests w;
     isLoading := isLoading w; processingId := processingId w; toasts := x;
     console := console w |}.

Definition set_console (x : list (string * Exn)) (w : World) : World :=
  {| locations := locations w; location_requests := location_requests w;
     session := session w; clock := clock w; faults := faults w;
     calls := calls w; in_flight := in_flight w; requests := requests w;
     isLoading := isLoading w; processingId := processingId w;
     toasts := toasts w; console := x |}.

(** *** The client library, as the handlers use it *)

Definition issue (c : Call) : M World unit :=
  modify (λ w, set_calls (calls w ++ [c]) w).

Definition next_fault : M World (option string) := λ w,
  match faults w with
  | [] => (Ok None, w)
  | f :: rest => (Ok f, set_faults rest w)
  end.

(** [supabase.auth.getUser()], read as [{ data: { user } }]. *)
Definition auth_getUser : M World (option User) :=
  issue GetUser ;; gets session.

(** [supabase.from("locations").insert(row)], read as [{ error }]. *)
Definition from_locations_insert (row : Loc.Insert) : M World (option Exn) :=
  issue (Insert "locations" row) ;;
  f ← next_fault;
  match f with
  | Some msg => mret (Some (RemoteError msg))
  | None =>
      modify (λ w, set_locations (locations w ++ [row]) w) ;;
      mret None
  end.

(** The rows an [.update(patch).eq("id", v)] leaves behind: every row
    whose [id] is [v] is patched, whatever its other columns hold. *)
Definition update_where_id (patch : Req.Patch) (v : string) (rows : list Req.t)
    : list Req.t :=
  (λ r, if decide (Req.id r = v) then Req.apply patch r else r) <$> rows.

(** [supabase.from("location_requests").update(patch).eq("id", v)]. *)
Definition from_location_requests_update_eq_id (patch : Req.Patch) (v : string)
    : M World (option Exn) :=
  issue (Update "location_requests" patch "id" v) ;;
  f ← next_fault;
  match f with
  | Some msg => mret (Some (RemoteError msg))
  | None =>
      modify (λ w, set_location_requests
                     (update_where_id patch v (location_requests w)) w) ;;
      mret None
  end.

(** Newest first.  The database orders the column as a timestamp; on
    strings written in one ISO-8601 format that is the order of the
    strings. *)
Definition newer_first (a b : Req.t) : Prop :=
  String.leb (Req.created_at b) (Req.created_at a) = true.

#[export] Instance newer_first_dec a b : Decision (newer_first a b).
Proof. unfold newer_first. apply _. Defined.

Definition pending_rows (rows : list Req.t) : list Req.t :=
  merge_sort newer_first (filter (λ r, Req.status r = Some "pending") rows).

(** [supabase.from("location_requests").select("*").eq("status", "pending")
    .order("created_at", { ascending: false })], read as [{ data, error }]. *)
Definition from_location_requests_select_pending
    : M World (option (list Req.t) * option Exn) :=
  issue (Select "location_requests" "status" "pending" "created_at") ;;
  f ← next_fault;
  match f with
  | Some msg => mret (None, Some (RemoteError msg))
  | None => rows ← gets location_requests; mret (Some (pending_rows rows), None)
  end.

(** [new Date().toISOString()]. *)
Definition new_Date_toISOString : M World string := gets clock.

Definition toast (t : Toast) : M World unit :=
  modify (λ w, set_toasts (toasts w ++ [t]) w).

Definition console_error (label : string) (error : Exn) : M World unit :=
  modify (λ w, set_console (console w ++ [(label, error)]) w).

Definition setRequests (x : list Req.t) : M World unit := modify (set_requests x).
Definition setIsLoading (x : bool) : M World unit := modify (set_isLoading x).
Definition setProcessingId (x : option string) : M World unit :=
  modify (set_processingId x).

Definition quote : string := String (Ascii.ascii_of_nat 34) EmptyString.

(** *** The handlers *)

(** Each handler is an [async] function.  A handler is run here from its
    call to its end with each awaited call answered before anything else
    happens in the view; a call whose promise the source drops is the
    exception, see [unawaited_fetchPendingRequests]. *)

(** [fetchPendingRequests] with its select answered at once. *)
Definition fetchPendingRequests : M World unit :=
  try_catch_finally
    ('(data, error) ← from_location_requests_select_pending;
     match error with
     | Some e => throw e
     | None => setRequests (default [] data)
     end)
    (λ error,
       console_error "Error fetching requests:" error ;;
       toast {| title := "Error";
                description := "Failed to fetch pending requests";
                variant := Some "destructive" |})
    (setIsLoading false).

(** [fetchPendingRequests] from its [await] on, given what the select
    resolved to. *)
Definition fetchPendingRequests_resume (answer : Reply) : M World unit :=
  try_catch_finally
    (let '(data, error) := answer in
     match error with
     | Some e => throw e
     | None => setRequests (default [] data)
     end)
    (λ error,
       console_error "Error fetching requests:" error ;;
       toast {| title := "Error";
                description := "Failed to fetch pending requests";
                variant := Some "destructive" |})
    (setIsLoading false).

(** [fetchPendingRequests()] with its promise dropped: the call runs to
    its [await], which issues the select, and returns; the rest of the
    function waits in [in_flight] for the answer, and its completion never
    reaches the caller. *)
Definition unawaited_fetchPendingRequests : M World unit :=
  answer ← from_location_requests_select_pending;
  modify (λ w, set_in_flight (in_flight w ++ [answer]) w).

Definition handleApprove (request : Req.t) : M World unit :=
  setProcessingId (Some (Req.id request)) ;;
  try_catch_finally
    (user ← auth_getUser;
     match user with
     | None => throw (JsError "Not authenticated")
     | Some user =>
         (* Create the location *)
         locationError ← from_locations_insert
           {| Loc.name := Req.location_name request;
              Loc.region := Req.region request;
              Loc.latitude := Req.latitude request;
              Loc.longitude := Req.longitude request;
              Loc.thingspeak_channel_id := Req.thingspeak_channel_id request;
              Loc.thingspeak_read_key := Req.thingspeak_read_key request;
              Loc.status := "normal" |};
         match locationError with
         | Some e => throw e
         | None =>
             (* Update request status *)
             now ← new_Date_toISOString;
             updateError ← from_location_requests_update_eq_id
               {| Req.p_status := "approved";
                  Req.p_reviewed_by := uid user;
                  Req.p_reviewed_at := now |}
               (Req.id request);
             match updateError with
             | Some e => throw e
             | None =>
                 toast {| title := "Success";
                          description :=
                            "Location " +:+ quote +:+ Req.location_name request
                            +:+ quote +:+ " has been approved and added";
                          variant := None |} ;;
                 unawaited_fetchPendingRequests
             end
         end
     end)
    (λ error,
       console_error "Error approving request:" error ;;
       toast {| title := "Error";
                description := "Failed to approve request";
                variant := Some "destructive" |})
    (setProcessingId None).

Definition handleReject (request : Req.t) : M World unit :=
  setProcessingId (Some (Req.id request)) ;;
  try_catch_finally
    (user ← auth_getUser;
     match user with
     | None => throw (JsError "Not authenticated")
     | Some user =>
         now ← new_Date_toISOString;
         error ← from_location_requests_update_eq_id
           {| Req.p_status := "rejected";
              Req.p_reviewed_by := uid user;
              Req.p_reviewed_at := now |}
           (Req.id request);
         match error with
         | Some e => throw e
         | None =>
             toast {| title := "Request Rejected";
                      description :=
                        "Location request for " +:+ quote
                        +:+ Req.location_name request +:+ quote
                        +:+ " has been rejected";
                      variant := None |} ;;
             unawaited_fetchPendingRequests
         end
     end)
    (λ error,
       console_error "Error rejecting request:" error ;;
       toast {| title := "Error";
                description := "Failed to reject request";
                variant := Some "destructive" |})
    (setProcessingId None).

(** *** The view as the reviewer drives it *)

(** A freshly mounted view over a given service; answers still on their
    way to an earlier instance of the component are lost to it. *)
Definition mounting (w : World) : World :=
  set_in_flight [] (set_requests [] (set_isLoading true (set_processingId None w))).

(** [Mount]: the effect calls [fetchPendingRequests()] and drops its
    promise.  [Answer k]: the [k]-th select in flight resolves and the
    [fetchPendingRequests] that waited for it runs to its end; answers may
    arrive in any order.  A click runs the handler up to its end; the
    refetch it starts stays in flight. *)
Inductive Event : Type :=
| Mount
| Answer (k : nat)
| ClickApprove (card : nat)
| ClickReject (card : nat).

(** Once loading is over the view renders one card per element of
    [requests], each with an Approve and a Reject button; both are
    disabled while [processingId] is the card's request id. *)
Definition card (i : nat) (w : World) : option Req.t :=
  if isLoading w then None
  else
    r ← requests w !! i;
    if decide (processingId w = Some (Req.id r)) then None else Some r.

Definition step (ev : Event) (w : World) : World :=
  match ev with
  | Mount => exec unawaited_fetchPendingRequests (mounting w)
  | Answer k =>
      match in_flight w !! k with
      | Some answer =>
          exec (fetchPendingRequests_resume answer)
            (set_in_flight (delete k (in_flight w)) w)
      | None => w
      end
  | ClickApprove i =>
      match card i w with
      | Some request => exec (handleApprove request) w
      | None => w
      end
  | ClickReject i =>
      match card i w with
      | Some request => exec (handleReject request) w
      | None => w
      end
  end.

Definition run (evs : list Event) (w : World) : World :=
  foldl (λ w ev, step ev w) w evs.

(** *** Observations on a run of a handler *)

(** The calls a handler issued, oldest first. *)
Definition issued (m : M World unit) (w : World) : list Call :=
  drop (length (calls w)) (calls (exec m w)).

(** The outcome scripted for the [n]-th table call to come. *)
Definition upcoming (n : nat) (w : World) : option string :=
  mjoin (faults w !! n).

(** What a handler logged to the console. *)
Definition logged (m : M World unit) (w : World) : list (string * Exn) :=
  drop (length (console w)) (console (exec m w)).

(** What a handler showed to the reviewer. *)
Definition shown (m : M World unit) (w : World) : list Toast :=
  drop (length (toasts w)) (toasts (exec m w)).

(** The handler went through its [catch] block, which logs under [label]. *)
Definition caught (label : string) (m : M World unit) (w : World) : bool :=
  existsb (λ entry, String.eqb entry.1 label) (logged m w).

(** The status column of the rows with a given id. *)
Definition status_of (v : string) (rows : list Req.t) : list (option string) :=
  Req.status <$> filter (λ r, Req.id r = v) rows.

(** The row [handleApprove] builds from a request. *)
Definition copied_from (request : Req.t) (row : Loc.Insert) : Prop :=
  Loc.name row = Req.location_name request ∧
  Loc.region row = Req.region request ∧
  Loc.latitude row = Req.latitude request ∧
  Loc.longitude row = Req.longitude request ∧
  Loc.thingspeak_channel_id row = Req.thingspeak_channel_id request ∧
  Loc.thingspeak_read_key row = Req.thingspeak_read_key request.

(** *** Sample data *)

Definition request_1 : Req.t :=
  {| Req.id := "r1"; Req.location_name := "Depot"; Req.region := "North";
     Req.latitude := 12.5; Req.longitude := 77.25;
     Req.thingspeak_channel_id := "2001"; Req.thingspeak_read_key := "KEY1";
     Req.reason := None; Req.status := Some "pending";
     Req.created_at := "2025-01-02T10:00:00Z"; Req.user_id := "u7";
     Req.user_email := None; Req.reviewed_by := None; Req.reviewed_at := None |}.

Definition service (user : option User) (script : list (option string)) : World :=
  {| locations := []; location_requests := [request_1];
     session := user; clock := "2025-01-03T08:00:00Z"; faults := script;
     calls := []; in_flight := []; requests := [request_1]; isLoading := false;
     processingId := None; toasts := []; console := [] |}.

Definition reviewer : User := {| uid := "admin" |}.

(** A request that was approved earlier. *)
Definition request_2 : Req.t :=
  {| Req.id := "r2"; Req.location_name := "Mill"; Req.region := "West";
     Req.latitude := 11.0; Req.longitude := 76.5;
     Req.thingspeak_channel_id := "2002"; Req.thingspeak_read_key := "KEY2";
     Req.reason := Some "night shift"; Req.status := Some "approved";
     Req.created_at := "2025-01-01T09:00:00Z"; Req.user_id := "u8";
     Req.user_email := None; Req.reviewed_by := Some "admin";
     Req.reviewed_at := Some "2025-01-02T12:00:00Z" |}.

(** A signed-in reviewer whose view lists the one pending request of a
    table with two rows, on a service whose calls all succeed. *)
Definition review_desk : World :=
  {| locations := []; location_requests := [request_1; request_2];
     session := Some reviewer; clock := "2025-01-03T08:00:00Z"; faults := [];
     calls := []; in_flight := []; requests := [request_1]; isLoading := false;
     processingId := None; toasts := []; console := [] |}.

(** *** Statements about the request lifecycle *)


(** The reject action read as unconditional: whatever the service answers,
    a pending request ends up rejected and [locations] is left alone. *)
Definition reject_always_rejects (w : World) (request : Req.t) : Prop :=
  status_of (Req.id request) (location_requests w) = [Some "pending"] →
  status_of (Req.id request) (location_requests (exec (handleReject request) w))
    = [Some "rejected"] ∧
  locations (exec (handleReject request) w) = locations w.



(** *** Statements about the calls and rows of a run *)

(** A write the view is written to issue: an insert of a "normal" location,
    or an update of the requests table keyed on the id that sets the
    status "approved" or "rejected". *)
Definition review_write (c : Call) : Prop :=
  match c with
  | Insert table row => table = "locations" ∧ Loc.status row = "normal"
  | Update table patch column _ =>
      table = "location_requests" ∧ column = "id" ∧
      (Req.p_status patch = "approved" ∨ Req.p_status patch = "rejected")
  | GetUser | Select _ _ _ _ => True
  end.

(** [r'] is [r] as a reviewer's update leaves it: the three review columns
    aside, every column is the one of [r]. *)
Definition reviewed_from (r r' : Req.t) : Prop :=
  Req.id r' = Req.id r ∧
  Req.location_name r' = Req.location_name r ∧
  Req.region r' = Req.region r ∧
  Req.latitude r' = Req.latitude r ∧
  Req.longitude r' = Req.longitude r ∧
  Req.thingspeak_channel_id r' = Req.thingspeak_channel_id r ∧
  Req.thingspeak_read_key r' = Req.thingspeak_read_key r ∧
  Req.reason r' = Req.reason r ∧
  Req.created_at r' = Req.created_at r ∧
  Req.user_id r' = Req.user_id r ∧
  Req.user_email r' = Req.user_email r.

End Pending.

(** ** The location-detail view (LocationDetails) *)

Module Details.

Record Location := {
  id : string;
  name : string;
  region : string;
  status : string;
  latitude : Js.number;
  longitude : Js.number;
  thingspeak_channel_id : option string;
  thingspeak_read_key : option string }.

(** A call the client issues to the hosted service. *)
Inductive Call : Type :=
| SelectSingle (table : string) (eq_column eq_value : string)
| Invoke (function_name : string) (body : Js.json).

(** What [supabase.functions.invoke] resolves to, read as [{ data, error }]:
    an error, or a [data] object with its [success] flag and its [data]. *)
Inductive InvokeResult : Type :=
| InvokeError (e : Exn)
| InvokeData (success : bool) (data : Js.json).

(** A function value the view hands to the browser.  The only one is
    [fetchSensorData]; as every function of the component it is created by
    a render and reads the [location] of that render. *)
Inductive Callback : Type :=
| FetchSensorData (location : option Location).

(** A timer started by [setInterval(callback, delay)]: the browser runs
    [callback] each time [delay] milliseconds have passed, until the handle
    is cleared. *)
Record Timer := { handle : nat; delay : Z; callback : Callback }.

(** The hosted service ([db_locations], and the scripted outcomes [faults]
    of the table calls and [responses] of the function calls to come,
    oldest first; an exhausted [faults] means success, an exhausted
    [responses] an unsuccessful answer), the log of [calls] issued, the
    state of the component, and the browser's timers.  [cleanup] is the
    interval handle held by the cleanup function of the mounted effect. *)
Record World := {
  db_locations : list Location;
  faults : list (option Exn);
  responses : list InvokeResult;
  calls : list Call;
  location : option Location;
  sensorData : option Js.json;
  historicalData : list Js.json;
  rawData : option Js.json;
  isLoading : bool;
  isRefreshing : bool;
  toasts : list Toast;
  console : list (string * Exn);
  timers : list Timer;
  next_handle : nat;
  cleanup : option nat }.

Definition set_faults (x : list (option Exn)) (w : World) : World :=
  {| db_locations := db_locations w; faults := x; responses := responses w;
     calls := calls w; location := location w; sensorData := sensorData w;
     historicalData := historicalData w; rawData := rawData w;
     isLoading := isLoading w; isRefreshing := isRefreshing w;
     toasts := toasts w; console := console w; timers := timers w;
     next_handle := next_handle w; cleanup := cleanup w |}.

Definition set_responses (x : list InvokeResult) (w : World) : World :=
  {| db_locations := db_locations w; faults := faults w; responses := x;
     calls := calls w; location := location w; sensorData := sensorData w;
     historicalData := historicalData w; rawData := rawData w;
     isLoading := isLoading w; isRefreshing := isRefreshing w;
     toasts := toasts w; console := console w; timers := timers w;
     next_handle := next_handle w; cleanup := cleanup w |}.

Definition set_calls (x : list Call) (w : World) : World :=
  {| db_locations := db_locations w; faults := faults w;
     responses := responses w; calls := x; location := location w;
     sensorData := sensorData w; historicalData := historicalData w;
     rawData := rawData w; isLoading := isLoading w;
     isRefreshing := isRefreshing w; toasts := toasts w;
     console := console w; timers := timers w; next_handle := next_handle w;
     cleanup := cleanup w |}.

Definition set_location (x : option Location) (w : World) : World :=
  {| db_locations := db_locations w; faults := faults w;
     responses := responses w; calls := calls w; location := x;
     sensorData := sensorData w; historicalData := historicalData w;
     rawData := rawData w; isLoading := isLoading w;
     isRefreshing := isRefreshing w; toasts := toasts w;
     console := console w; timers := timers w; next_handle := next_handle w;
     cleanup := cleanup w |}.

Definition set_sensorData (x : option Js.json) (w : World) : World :=
  {| db_locations := db_locations w; faults := faults w;
     responses := responses w; calls := calls w; location := location w;
     sensorData := x; historicalData := historicalData w;
     rawData := rawData w; isLoading := isLoading w;
     isRefreshing := isRefreshing w; toasts := toasts w;
     console := console w; timers := timers w; next_handle := next_handle w;
     cleanup := cleanup w |}.

Definition set_historicalData (x : list Js.json) (w : World) : World :=
  {| db_locations := db_locations w; faults := faults w;
     responses := responses w; calls := calls w; location := location w;
     sensorData := sensorData w; historicalData := x; rawData := rawData w;
     isLoading := isLoading w; isRefreshing := isRefreshing w;
     toasts := toasts w; console := console w; timers := timers w;
     next_handle := next_handle w; cleanup := cleanup w |}.

Definition set_rawData (x : option Js.json) (w : World) : World :=
  {| db_locations := db_locations w; faults := faults w;
     responses := responses w; calls := calls w; location := location w;
     sensorData := sensorData w; historicalData := historicalData w;
     rawData := x; isLoading := isLoading w; isRefreshing := isRefreshing w;
     toasts := toasts w; console := console w; timers := timers w;
     next_handle := next_handle w; cleanup := cleanup w |}.

Definition set_isLoading (x : bool) (w : World) : World :=
  {| db_locations := db_locations w; faults := faults w;
     responses := responses w; calls := calls w; location := location w;
     sensorData := sensorData w; historicalData := historicalData w;
     rawData := rawData w; isLoading := x; isRefreshing := isRefreshing w;
     toasts := toasts w; console := console w; timers := timers w;
     next_handle := next_handle w; cleanup := cleanup w |}.

Definition set_isRefreshing (x : bool) (w : World) : World :=
  {| db_locations := db_locations w; faults := faults w;
     responses := responses w; calls := calls w; location := location w;
     sensorData := sensorData w; historicalData := historicalData w;
     rawData := rawData w; isLoading := isLoading w; isRefreshing := x;
     toasts := toasts w; console := console w; timers := timers w;
     next_handle := next_handle w; cleanup := cleanup w |}.

Definition set_toasts (x : list Toast) (w : World) : World :=
  {| db_locations := db_locations w; faults := faults w;
     responses := responses w; calls := calls w; location := location w;
     sensorData := sensorData w; historicalData := historicalData w;
     rawData := rawData w; isLoading := isLoading w;
     isRefreshing := isRefreshing w; toasts := x; console := console w;
     timers := timers w; next_handle := next_handle w; cleanup := cleanup w |}.

Definition set_console (x : list (string * Exn)) (w : World) : World :=
  {| db_locations := db_locations w; faults := faults w;
     responses := responses w; calls := calls w; location := location w;
     sensorData := sensorData w; historicalData := historicalData w;
     rawData := rawData w; isLoading := isLoading w;
     isRefreshing := isRefreshing w; toasts := toasts w; console := x;
     timers := timers w; next_handle := next_handle w; cleanup := cleanup w |}.

Definition set_timers (x : list Timer) (w : World) : World :=
  {| db_locations := db_locations w; faults := faults w;
     responses := responses w; calls := calls w; location := location w;
     sensorData := sensorData w; historicalData := historicalData w;
     rawData := rawData w; isLoading := isLoading w;
     isRefreshing := isRefreshing w; toasts := toasts w;
     console := console w; timers := x; next_handle := next_handle w;
     cleanup := cleanup w |}.

Definition set_next_handle (x : nat) (w : World) : World :=
  {| db_locations := db_locations w; faults := faults w;
     responses := responses w; calls := calls w; location := location w;
     sensorData := sensorData w; historicalData := historicalData w;
     rawData := rawData w; isLoading := isLoading w;
     isRefreshing := isRefreshing w; toasts := toasts w;
     console := console w; timers := timers w; next_handle := x;
     cleanup := cleanup w |}.

Definition set_cleanup (x : option nat) (w : World) : World :=
  {| db_locations := db_locations w; faults := faults w;
     responses := responses w; calls := calls w; location := location w;
     sensorData := sensorData w; historicalData := historicalData w;
     rawData := rawData w; isLoading := isLoading w;
     isRefreshing := isRefreshing w; toasts := toasts w;
     console := console w; timers := timers w; next_handle := next_handle w;
     cleanup := x |}.

(** *** The client library and the browser *)

Definition issue (c : Call) : M World unit :=
  modify (λ w, set_calls (calls w ++ [c]) w).

Definition next_fault : M World (option Exn) := λ w,
  match faults w with
  | [] => (Ok None, w)
  | f :: rest => (Ok f, set_faults rest w)
  end.

Definition next_response : M World InvokeResult := λ w,
  match responses w with
  | [] => (Ok (InvokeData false (Js.JObj [])), w)
  | r :: rest => (Ok r, set_responses rest w)
  end.

(** [supabase.from("locations").select("*").eq("id", id).single()]: the row
    when exactly one matches, an error otherwise. *)
Definition from_locations_select_single (v : string) : M World (Exn + Location) :=
  issue (SelectSingle "locations" "id" v) ;;
  f ← next_fault;
  match f with
  | Some e => mret (inl e)
  | None =>
      rows ← gets db_locations;
      match filter (λ row, id row = v) rows with
      | [row] => mret (inr row)
      | _ => mret (inl (RemoteError "no single row"))
      end
  end.

(** [supabase.functions.invoke(function_name, { body })]. *)
Definition functions_invoke (function_name : string) (body : Js.json)
    : M World InvokeResult :=
  issue (Invoke function_name body) ;;
  next_response.

Definition toast (t : Toast) : M World unit :=
  modify (λ w, set_toasts (toasts w ++ [t]) w).

Definition console_error (label : string) (error : Exn) : M World unit :=
  modify (λ w, set_console (console w ++ [(label, error)]) w).

Definition setLocation (x : option Location) : M World unit := modify (set_location x).
Definition setSensorData (x : option Js.json) : M World unit := modify (set_sensorData x).
Definition setHistoricalData (x : list Js.json) : M World unit :=
  modify (set_historicalData x).
Definition setRawData (x : option Js.json) : M World unit := modify (set_rawData x).
Definition setIsLoading (x : bool) : M World unit := modify (set_isLoading x).
Definition setIsRefreshing (x : bool) : M World unit := modify (set_isRefreshing x).

(** [setInterval(callback, delay)], returning the handle. *)
Definition setInterval (cb : Callback) (ms : Z) : M World nat :=
  h ← gets next_handle;
  modify (λ w, set_next_handle (S h)
                 (set_timers (timers w ++ [{| handle := h; delay := ms; callback := cb |}]) w)) ;;
  mret h.

(** [clearInterval(h)]. *)
Definition clearInterval (h : nat) : M World unit :=
  modify (λ w, set_timers (filter (λ t, handle t ≠ h) (timers w)) w).

(** A call of an [async] function whose promise is dropped: its
    completion never reaches the caller.  The callee is run to its end at
    the call, so the view is observed once the load the effect started has
    settled, with no other event placed in between. *)
Definition unawaited (m : M World unit) : M World unit :=
  λ w, (Ok tt, exec m w).

(** [error instanceof Error ? error.message : "Unknown error"]. *)
Definition message_of (error : Exn) : string :=
  match error with
  | JsError message => message
  | RemoteError _ => "Unknown error"
  end.

(** *** The functions of the component

    Each takes the [location] of the render that created it. *)

(** [location?.thingspeak_channel_id] and [location?.thingspeak_read_key]. *)
Definition channel_of (location : option Location) : option string :=
  location ≫= thingspeak_channel_id.

Definition read_key_of (location : option Location) : option string :=
  location ≫= thingspeak_read_key.

(** The [location] object both requests carry. *)
Definition credentials (location : option Location) : Js.json :=
  Js.JObj [("thingspeak_channel_id", Js.of_nullable (channel_of location));
           ("thingspeak_read_key", Js.of_nullable (read_key_of location))].

Definition latest_body (location : option Location) : Js.json :=
  Js.JObj [("action", Js.JStr "latest");
           ("location", credentials location)].

Definition history_body (location : option Location) : Js.json :=
  Js.JObj [("action", Js.JStr "history");
           ("location", credentials location);
           ("results", Js.JNum 50)].

(** Both credentials of the location are truthy. *)
Definition has_credentials (location : option Location) : bool :=
  Js.truthy (channel_of location) && Js.truthy (read_key_of location).

Definition fetchSensorData (location : option Location) : M World unit :=
  if negb (Js.truthy (channel_of location))
     || negb (Js.truthy (read_key_of location))
  then mret tt
  else
    try_catch
      (r ← functions_invoke "thingspeak-service" (latest_body location);
       match r with
       | InvokeError e => throw e
       | InvokeData success data =>
           if success
           then setSensorData (Some data) ;; setRawData (Some data)
           else mret tt
       end)
      (λ error, console_error "Error fetching sensor data:" error).

(** A [TypeError] raised by the engine; its message is the engine's wording
    and is not modelled. *)
Definition TypeError : Exn := JsError "TypeError".

(** [data.data.map(callback)], as far as it can fail: on a value that is
    not an array there is no [map] to call, and the callback reads
    [item.timestamp], which throws on a [null] item; each is a [TypeError]
    and no sample is kept.  The items of a list without [null] are kept as
    received, and the sample each is drawn as is [format_sample] below. *)
Definition samples (data : Js.json) : option (list Js.json) :=
  match data with
  | Js.JArr items =>
      if existsb Js.is_null items then None else Some items
  | _ => None
  end.

Definition fetchHistoricalData (location : option Location) : M World unit :=
  if negb (Js.truthy (channel_of location))
     || negb (Js.truthy (read_key_of location))
  then mret tt
  else
    try_catch
      (r ← functions_invoke "thingspeak-service" (history_body location);
       match r with
       | InvokeError e => throw e
       | InvokeData success data =>
           if success
           then
             match samples data with
             | Some formattedData => setHistoricalData formattedData
             | None => throw TypeError
             end
           else mret tt
       end)
      (λ error, console_error "Error fetching historical data:" error).

Definition fetchLocationData (route_id : string) (location : option Location)
    : M World unit :=
  try_catch_finally
    (setIsLoading true ;;
     r ← from_locations_select_single route_id;
     match r with
     | inl error => throw error
     | inr data =>
         setLocation (Some data) ;;
         if Js.truthy (thingspeak_channel_id data)
            && Js.truthy (thingspeak_read_key data)
         then fetchSensorData location ;; fetchHistoricalData location
         else mret tt
     end)
    (λ error,
       toast {| title := "Error fetching location";
                description := message_of error;
                variant := Some "destructive" |})
    (setIsLoading false).

Definition handleRefresh (location : option Location) : M World unit :=
  setIsRefreshing true ;;
  fetchSensorData location ;;
  fetchHistoricalData location ;;
  setIsRefreshing false ;;
  toast {| title := "Data refreshed";
           description := "Sensor data has been updated";
           variant := None |}.

(** The body of [useEffect(..., [id])], run with the functions of the
    render that scheduled it; what it returns is kept in [cleanup]. *)
Definition effect (route_id : string) (location : option Location) : M World unit :=
  unawaited (fetchLocationData route_id location) ;;
  interval ← setInterval (FetchSensorData location) 10000;
  modify (set_cleanup (Some interval)).

(** The cleanup function of the effect: [clearInterval(interval)]. *)
Definition run_cleanup : M World unit :=
  c ← gets cleanup;
  match c with
  | Some interval => clearInterval interval ;; modify (set_cleanup None)
  | None => mret tt
  end.

Definition run_callback (cb : Callback) : M World unit :=
  match cb with
  | FetchSensorData location => fetchSensorData location
  end.

(** *** The view as the browser drives it *)

Inductive Event : Type :=
| Mount (route_id : string)
| ChangeRoute (route_id : string)
| Tick (h : nat)
| ClickRefresh
| Unmount.

(** The state of a component that has not rendered yet. *)
Definition unrendered (w : World) : World :=
  set_location None (set_sensorData None (set_historicalData []
    (set_rawData None (set_isLoading true (set_isRefreshing false w))))).

(** - [Mount]: the first render has [location = null]; its effect runs.
    - [ChangeRoute]: the route parameter changes to another id under the
      mounted view;
      the state is kept, the cleanup of the previous effect runs, and the
      effect runs again with the functions of the current render.
    - [Tick h]: the delay of timer [h] has passed once more; the browser
      runs its callback if the handle is still registered.
    - [ClickRefresh]: the Refresh button, rendered once a location is
      loaded and enabled unless a refresh is running, calls the
      [handleRefresh] of the current render.
    - [Unmount]: the cleanup of the effect runs. *)
Definition step (ev : Event) (w : World) : World :=
  match ev with
  | Mount route_id => exec (effect route_id None) (unrendered w)
  | ChangeRoute route_id =>
      exec (run_cleanup ;; effect route_id (location w)) w
  | Tick h =>
      match filter (λ t, handle t = h) (timers w) with
      | t :: _ => exec (run_callback (callback t)) w
      | [] => w
      end
  | ClickRefresh =>
      if isLoading w || isRefreshing w then w
      else match location w with
           | Some _ => exec (handleRefresh (location w)) w
           | None => w
           end
  | Unmount => exec run_cleanup w
  end.

Definition run (evs : list Event) (w : World) : World :=
  foldl (λ w ev, step ev w) w evs.

(** The calls a computation issued, oldest first. *)
Definition issued (m : M World unit) (w : World) : list Call :=
  drop (length (calls w)) (calls (exec m w)).

(** *** Sample data *)

Definition depot : Location :=
  {| id := "L1"; name := "Depot"; region := "North"; status := "normal";
     latitude := 12.5; longitude := 77.25;
     thingspeak_channel_id := Some "2001";
     thingspeak_read_key := Some "KEY1" |}.

Definition yard : Location :=
  {| id := "L0"; name := "Yard"; region := "South"; status := "normal";
     latitude := 13.0; longitude := 77.5;
     thingspeak_channel_id := None;
     thingspeak_read_key := None |}.

Definition harbor : Location :=
  {| id := "L2"; name := "Harbor"; region := "East"; status := "warning";
     latitude := 12.75; longitude := 77.0;
     thingspeak_channel_id := Some "2002";
     thingspeak_read_key := Some "KEY2" |}.

Definition reading : Js.json :=
  Js.JObj [("flame", Js.JStr "12"); ("gas", Js.JNum 310)].

(** A service with the given rows and scripted function answers, and a
    view that is not mounted. *)
Definition service (rows : list Location) (answers : list InvokeResult) : World :=
  {| db_locations := rows; faults := []; responses := answers; calls := [];
     location := None; sensorData := None; historicalData := [];
     rawData := None; isLoading := true; isRefreshing := false;
     toasts := []; console := []; timers := []; next_handle := 0;
     cleanup := None |}.

(** *** Statements about polling and the requests sent *)

(** The events that can reach a mounted view and leave it mounted. *)
Definition keeps_mounted (ev : Event) : Prop :=
  match ev with
  | Tick _ | ClickRefresh | ChangeRoute _ => True
  | Mount _ | Unmount => False
  end.

(** The events that reach a mounted view without changing its route. *)
Definition stays_on_route (ev : Event) : Prop :=
  match ev with
  | Tick _ | ClickRefresh => True
  | Mount _ | ChangeRoute _ | Unmount => False
  end.

(** Polling read as unconditional: once the view for [route_id] is
    mounted, a timer with a delay of ten seconds is registered whose run
    issues one request for the latest reading. *)
Definition polls_every_interval (route_id : string) (w : World) : Prop :=
  let w1 := step (Mount route_id) w in
  ∃ t, t ∈ timers w1 ∧ delay t = 10000%Z ∧
       ∃ body,
         drop (length (calls w1)) (calls (step (Tick (handle t)) w1))
           = [Invoke "thingspeak-service" body] ∧
         Js.get "action" body = Some (Js.JStr "latest").

(** The request body as the interface description words it: an action,
    a location object with exactly the fields [channel_id] and [read_key],
    and [results] only with the action "history". *)
Definition stated_shape (body : Js.json) : Prop :=
  (Js.get "action" body = Some (Js.JStr "latest") ∨
   Js.get "action" body = Some (Js.JStr "history")) ∧
  (∃ loc, Js.get "location" body = Some loc ∧
          Js.keys loc = ["channel_id"; "read_key"]) ∧
  (is_Some (Js.get "results" body) →
   Js.get "action" body = Some (Js.JStr "history")).

(** The request body as the client writes it: the location object has
    exactly the fields [thingspeak_channel_id] and [thingspeak_read_key],
    both non-empty strings; the body is [{action: "latest", location}] or
    [{action: "history", location, results: 50}]. *)
Definition sent_shape (body : Js.json) : Prop :=
  (∃ loc channel read_key,
     Js.get "location" body = Some loc ∧
     Js.keys loc = ["thingspeak_channel_id"; "thingspeak_read_key"] ∧
     Js.get "thingspeak_channel_id" loc = Some (Js.JStr channel) ∧
     Js.get "thingspeak_read_key" loc = Some (Js.JStr read_key) ∧
     channel ≠ EmptyString ∧ read_key ≠ EmptyString) ∧
  ((Js.keys body = ["action"; "location"] ∧
    Js.get "action" body = Some (Js.JStr "latest")) ∨
   (Js.keys body = ["action"; "location"; "results"] ∧
    Js.get "action" body = Some (Js.JStr "history") ∧
    Js.get "results" body = Some (Js.JNum 50))).

(** A logged call is a table read, or a call of the telemetry function
    with one of the two bodies, built from a location with credentials. *)
Definition wire_shape (c : Call) : Prop :=
  match c with
  | SelectSingle _ _ _ => True
  | Invoke function_name body =>
      function_name = "thingspeak-service" ∧
      ∃ location, has_credentials location = true ∧
                  (body = latest_body location ∨ body = history_body location)
  end.

(** The requests [handleRefresh] sends for a location: the latest reading,
    then the history, each only for a location with credentials. *)
Definition telemetry (location : option Location) : list Call :=
  (if has_credentials location
   then [Invoke "thingspeak-service" (latest_body location)] else [])
  ++ (if has_credentials location
      then [Invoke "thingspeak-service" (history_body location)] else []).

(** [w'] is [w] after the calls [new] and nothing else that concerns the
    service log or the timers. *)
Definition grows (new : list Call) (w w' : World) : Prop :=
  calls w' = calls w ++ new ∧ timers w' = timers w ∧
  next_handle w' = next_handle w ∧ cleanup w' = cleanup w.

(** The view is polling: its one timer has a delay of ten seconds, runs
    [fetchSensorData], and is the one the cleanup of the effect clears. *)
Definition polling (w : World) : Prop :=
  ∃ h captured,
    timers w = [{| handle := h; delay := 10000;
                   callback := FetchSensorData captured |}] ∧
    cleanup w = Some h.

(** The history requests among the calls. *)
Definition is_history (c : Call) : bool :=
  match c with
  | Invoke _ body =>
      match Js.get "action" body with
      | Some (Js.JStr a) => String.eqb a "history"
      | _ => false
      end
  | SelectSingle _ _ _ => false
  end.

(** *** What the view shows *)

(** The toast [fetchLocationData] shows for the error [e]. *)
Definition load_error (e : Exn) : Toast :=
  {| title := "Error fetching location"; description := message_of e;
     variant := Some "destructive" |}.

(** The readings of [w'] are the ones of [w]. *)
Definition same_readings (w w' : World) : Prop :=
  sensorData w' = sensorData w ∧ rawData w' = rawData w ∧
  historicalData w' = historicalData w.

(** [fetchLocationData] failed with [e]: the location of the view and the
    readings are as before, one toast reports the error, and the only call
    issued is the read of the row. *)
Definition load_failed (route_id : string) (e : Exn) (w w' : World) : Prop :=
  location w' = location w ∧
  toasts w' = toasts w ++ [load_error e] ∧
  calls w' = calls w ++ [SelectSingle "locations" "id" route_id] ∧
  same_readings w w'.

(** The branches of the component's [return]: the loading screen, the
    not-found screen, and below the header either the card for a location
    without a channel or the live readings, which are a placeholder as
    long as [sensorData] is falsy. *)
Inductive Screen : Type :=
| LoadingLocation
| LocationNotFound
| NoChannelConfigured
| LoadingSensorData
| LiveReadings (data : Js.json).

Definition screen (w : World) : Screen :=
  if isLoading w then LoadingLocation
  else
    match location w with
    | None => LocationNotFound
    | Some l =>
        if negb (Js.truthy (thingspeak_channel_id l)) then NoChannelConfigured
        else
          match sensorData w with
          | Some data =>
              if Js.to_boolean data then LiveReadings data
              else LoadingSensorData
          | None => LoadingSensorData
          end
    end.

(** The toast [handleRefresh] ends with. *)
Definition refreshed : Toast :=
  {| title := "Data refreshed"; description := "Sensor data has been updated";
     variant := None |}.

(** [w'] differs from [w] at most in the log, the scripted answers, the
    readings and the console: a fetch of readings leaves everything else. *)
Definition same_view (w w' : World) : Prop :=
  location w' = location w ∧ isLoading w' = isLoading w ∧
  isRefreshing w' = isRefreshing w ∧ toasts w' = toasts w ∧
  db_locations w' = db_locations w ∧ faults w' = faults w.

(** *** The values the charts draw *)

(** [x || 0] on a property that may be missing: [undefined], [null],
    [false], the empty string, zero and NaN give 0, every other value is
    kept. *)
Definition or_zero (x : option Js.json) : Js.json :=
  match x with
  | None => Js.JNum 0
  | Some v => if Js.to_boolean v then v else Js.JNum 0
  end.

(** [n || 0] on a number. *)
Definition number_or_zero (n : Js.number) : Js.number :=
  if (n =? 0)%float || is_nan n then 0%float else n.

End Details.

(** The sample the history callback builds from an item of the answer, or
    [None] where the callback throws: reading [item.timestamp] of a [null]
    item is a [TypeError]; on every other value a property that is not
    there reads as [undefined].  [parseFloat] and the rendering of the time
    of day are left to the JavaScript engine and are parameters here. *)
Section ChartSample.

Variable parseFloat : option Js.json → Js.number.
Variable toLocaleTimeString : option Js.json → string.

Record HistoricalData := {
  h_timestamp : string;
  h_flame : Js.number;
  h_gas : Js.json;
  h_temperature : Js.json;
  h_humidity : Js.json }.

Definition format_sample (item : Js.json) : option HistoricalData :=
  match item with
  | Js.JNull => None
  | _ =>
      Some {| h_timestamp := toLocaleTimeString (Js.get "timestamp" item);
              h_flame := Details.number_or_zero (parseFloat (Js.get "flame" item));
              h_gas := Details.or_zero (Js.get "gas" item);
              h_temperature := Details.or_zero (Js.get "temperature" item);
              h_humidity := Details.or_zero (Js.get "humidity" item) |}
  end.

(** [items.map(callback)]: the samples of the batch, or [None] when the
    callback throws on one of them. *)
Definition formattedData (items : list Js.json) : option (list HistoricalData) :=
  mapM format_sample items.

End ChartSample.

(** * Properties *)

(** Unfolding of the handlers and of the operations they are built from. *)
Create HintDb handlers discriminated.

(** ** Comparison facts on binary64 *)

Section FloatOrder.

Lemma SFcompare_nan_r x : SFcompare x S754_nan = None.
Proof. by destruct x. Qed.

Lemma SFcompare_antisym x y :
  SFcompare y x = option_map CompOpp (SFcompare x y).
Proof.
  destruct x as [sx|sx| |sx mx ex], y as [sy|sy| |sy my ey]; simpl; try done;
    try (by destruct sx); try (by destruct sy); try (by destruct sx, sy).
  fold (Pos.compare my mx) (Pos.compare mx my).
  rewrite (Z.compare_antisym ex ey), (Pos.compare_antisym mx my).
  destruct sx, sy; simpl; try done;
    destruct (ex ?= ey)%Z; simpl; try done;
    by destruct (mx ?= my)%positive.
Qed.

(** [v < d] excludes [v >= d]. *)
Lemma lt_not_geq (v d : float) : Js.lt v d = true → Js.geq v d = false.
Proof.
  unfold Js.lt, Js.geq. rewrite FloatAxioms.ltb_spec, FloatAxioms.leb_spec. unfold SFltb, SFleb.
  rewrite (SFcompare_antisym (Prim2SF v) (Prim2SF d)).
  by destruct (SFcompare (Prim2SF v) (Prim2SF d)) as [[]|].
Qed.

Lemma is_nan_SF (d : float) : is_nan d = false → Prim2SF d ≠ S754_nan.
Proof.
  unfold is_nan. rewrite FloatAxioms.eqb_spec. unfold SFeqb. intros H E. rewrite E in H. done.
Qed.

Lemma SFcompare_None x y :
  SFcompare x y = None → x = S754_nan ∨ y = S754_nan.
Proof.
  destruct x as [sx|sx| |sx mx ex], y as [sy|sy| |sy my ey]; simpl; auto;
    try discriminate.
Qed.

(** When [v] is comparable to something and [d] is not NaN, the failure
    of [v >= d] is [v < d]. *)
Lemma not_geq_lt (v w d : float) :
  is_nan d = false → Js.geq v w = true → Js.geq v d = false → Js.lt v d = true.
Proof.
  intros Hd%is_nan_SF. unfold Js.lt, Js.geq.
  rewrite FloatAxioms.ltb_spec, !FloatAxioms.leb_spec. unfold SFltb, SFleb.
  rewrite (SFcompare_antisym (Prim2SF v) (Prim2SF d)).
  destruct (SFcompare (Prim2SF v) (Prim2SF d)) as [[]|] eqn:Ec; simpl; try done.
  destruct (SFcompare_None _ _ Ec) as [Ev|Ed]; [|done].
  rewrite Ev, SFcompare_nan_r. done.
Qed.

Lemma SFcompare_refl x : x ≠ S754_nan → SFcompare x x = Some Eq.
Proof.
  destruct x as [sx|sx| |sx mx ex]; simpl; try done; try (by destruct sx).
  intros _. fold (Pos.compare mx mx).
  rewrite Z.compare_refl, Pos.compare_refl. by destruct sx.
Qed.

Lemma is_nan_true_SF (v : float) : is_nan v = true → Prim2SF v = S754_nan.
Proof.
  unfold is_nan. rewrite FloatAxioms.eqb_spec. unfold SFeqb. intros H.
  destruct (Prim2SF v) as [sx|sx| |sx mx ex] eqn:E; [| |done|];
    by rewrite SFcompare_refl in H.
Qed.

(** Nothing is at or below NaN. *)
Lemma geq_nan_l (v d : float) : is_nan v = true → Js.geq v d = false.
Proof.
  intros Hv%is_nan_true_SF. unfold Js.geq.
  rewrite FloatAxioms.leb_spec, Hv. unfold SFleb. by rewrite SFcompare_nan_r.
Qed.

Lemma SFleb_trans a b c :
  SFleb a b = true → SFleb b c = true → SFleb a c = true.
Proof.
  unfold SFleb.
  destruct a as [sa|sa| |sa ma ea], b as [sb|sb| |sb mb eb],
    c as [sc|sc| |sc mc ec];
    simpl; try done;
    try (destruct sa; done); try (destruct sb; done); try (destruct sc; done);
    try (destruct sa, sb; done); try (destruct sb, sc; done);
    try (destruct sa, sc; done); try (destruct sa, sb, sc; done).
  fold (Pos.compare ma mb) (Pos.compare mb mc) (Pos.compare ma mc).
  destruct sa, sb, sc; try done;
    destruct (Z.compare_spec ea eb), (Z.compare_spec eb ec),
      (Z.compare_spec ea ec);
    try done; try lia; subst;
    destruct (Pos.compare_spec ma mb), (Pos.compare_spec mb mc),
      (Pos.compare_spec ma mc);
    simpl; try done; try lia.
Qed.

Lemma geq_trans (a b c : float) :
  Js.geq a b = true → Js.geq b c = true → Js.geq a c = true.
Proof.
  unfold Js.geq. rewrite !FloatAxioms.leb_spec. intros Hab Hbc.
  by apply (SFleb_trans _ (Prim2SF b)).
Qed.

End FloatOrder.

(** ** Threshold classification *)

Section SensorFacts.

Import Sensor.

(** C1: for every value [v] (NaN included) and every pair of thresholds
    whose danger level is a number, the classification is ["danger"] when
    [v >= danger], ["warning"] when [warning <= v < danger], and ["normal"]
    otherwise; with the gas thresholds, 300 is a warning, 500 is a danger
    and 299 is normal. *)
Theorem getSensorStatus_classifies (v : Js.number) (t : Thresholds) :
  is_nan (danger t) = false →
  (Js.geq v (danger t) = true → getSensorStatus v t = "danger") ∧
  (Js.geq v (warning t) = true → Js.lt v (danger t) = true →
   getSensorStatus v t = "warning") ∧
  (Js.geq v (danger t) = false →
   Js.geq v (warning t) = false ∨ Js.lt v (danger t) = false →
   getSensorStatus v t = "normal") ∧
  getSensorStatus v t = spec_classification v t ∧
  getSensorStatus 300 gas_thresholds = "warning" ∧
  getSensorStatus 500 gas_thresholds = "danger" ∧
  getSensorStatus 299 gas_thresholds = "normal".
Proof.
  intros Hnan. unfold getSensorStatus, spec_classification.
  split; [by intros ->|]. split; [|split; [|split; [|by vm_compute]]].
  - intros Hw Hlt. by rewrite (lt_not_geq v (danger t) Hlt), Hw.
  - intros Hd [Hw|Hlt]; rewrite Hd; [by rewrite Hw|].
    destruct (Js.geq v (warning t)) eqn:Hw; [|done].
    by rewrite (not_geq_lt v (warning t) (danger t) Hnan Hw Hd) in Hlt.
  - destruct (Js.geq v (danger t)) eqn:Hd; [done|].
    destruct (Js.geq v (warning t)) eqn:Hw; [|done].
    by rewrite (not_geq_lt v (warning t) (danger t) Hnan Hw Hd).
Qed.

Lemma getSensorStatus_classifies_witness :
  is_nan (danger temperature_thresholds) = false ∧
  getSensorStatus 42.5 temperature_thresholds = "warning" ∧
  getSensorStatus nan temperature_thresholds = "normal".
Proof.
  destruct (getSensorStatus_classifies 42.5 temperature_thresholds eq_refl)
    as (_ & Hw & _).
  destruct (getSensorStatus_classifies nan temperature_thresholds eq_refl)
    as (_ & _ & Hn & _).
  split; [reflexivity|]. split; [by apply Hw|]. apply Hn; [reflexivity|by left].
Defined.

(** The danger levels the view passes are numbers. *)
Lemma view_thresholds_numeric :
  Forall (λ t, is_nan (danger t) = false)
    [flame_thresholds; gas_thresholds; temperature_thresholds; humidity_thresholds].
Proof. repeat constructor. Qed.

(** The hypothesis on the danger level is needed: when it is NaN, a value
    at or above the warning level is a warning, though [v < danger] is
    false.  The view passes literal thresholds only. *)
Remark nan_danger_threshold :
  getSensorStatus 1 open_ended = "warning" ∧
  spec_classification 1 open_ended = "normal".
Proof. split; by vm_compute. Qed.

(** A reading that is not a number is classified "normal", whatever the
    thresholds: a flame value that does not parse never raises the card. *)
Theorem nan_reading_is_normal (v : Js.number) (t : Thresholds) :
  is_nan v = true → getSensorStatus v t = "normal".
Proof.
  intros Hv. unfold getSensorStatus. by rewrite !(geq_nan_l v _ Hv).
Qed.

Lemma nan_reading_is_normal_witness :
  getSensorStatus nan flame_thresholds = "normal".
Proof. apply nan_reading_is_normal. reflexivity. Defined.

(** The classification never goes down when the value goes up, for any
    thresholds: above a value classified "danger" everything is "danger",
    and above one classified "warning" nothing is "normal". *)
Theorem getSensorStatus_monotone (v1 v2 : Js.number) (t : Thresholds) :
  Js.geq v2 v1 = true →
  (getSensorStatus v1 t = "danger" → getSensorStatus v2 t = "danger") ∧
  (getSensorStatus v1 t = "warning" →
   getSensorStatus v2 t = "warning" ∨ getSensorStatus v2 t = "danger") ∧
  (getSensorStatus v2 t = "normal" → getSensorStatus v1 t = "normal").
Proof.
  intros Hv. unfold getSensorStatus.
  destruct (Js.geq v1 (danger t)) eqn:Hd1.
  - rewrite (geq_trans v2 v1 (danger t) Hv Hd1). done.
  - destruct (Js.geq v1 (warning t)) eqn:Hw1.
    + rewrite (geq_trans v2 v1 (warning t) Hv Hw1).
      destruct (Js.geq v2 (danger t)); repeat split; try done; auto.
    + repeat split; done.
Qed.

Lemma getSensorStatus_monotone_witness :
  getSensorStatus 45 temperature_thresholds = "warning" ∧
  (getSensorStatus 58.5 temperature_thresholds = "warning" ∨
   getSensorStatus 58.5 temperature_thresholds = "danger").
Proof.
  destruct (getSensorStatus_monotone 45 58.5 temperature_thresholds eq_refl)
    as (_ & Hw & _).
  split; [reflexivity|]. apply Hw. reflexivity.
Defined.

End SensorFacts.

(** ** The reviewer's handlers *)

Section PendingFacts.

Import Pending.

Implicit Types (w : World) (request : Req.t).

Lemma drop_length_app {A} (l k : list A) : drop (length l) (l ++ k) = k.
Proof. by rewrite drop_app_length. Qed.

#[local] Hint Unfold
  handleApprove handleReject fetchPendingRequests
  auth_getUser from_locations_insert from_location_requests_update_eq_id
  from_location_requests_select_pending new_Date_toISOString
  toast console_error setRequests setIsLoading setProcessingId
  unawaited_fetchPendingRequests fetchPendingRequests_resume
  issue next_fault issued logged shown caught upcoming
  try_catch_finally throw gets modify exec
  mbind M_bind mret M_ret : handlers.

(** Runs a handler on a world whose fields are variables. *)
Ltac run_handler :=
  autounfold with handlers in *;
  cbn -[pending_rows update_where_id status_of filter] in *;
  rewrite <- ?app_assoc in *;
  rewrite ?drop_length_app in *;
  cbn -[pending_rows update_where_id status_of filter] in *.

(** Splits on the outcomes scripted for the next three table calls. *)
Ltac split_faults fs :=
  destruct fs as [|[?|] [|[?|] [|[?|] ?]]].

(** *** The update keyed on the id *)

Lemma update_where_id_ids patch v rows :
  Req.id <$> update_where_id patch v rows = Req.id <$> rows.
Proof.
  unfold update_where_id. rewrite <- list_fmap_compose.
  apply list_fmap_ext. intros i r _. simpl. by case_decide.
Qed.

Lemma status_of_update_where_id patch v rows :
  status_of v (update_where_id patch v rows)
  = (λ _, Some (Req.p_status patch)) <$> status_of v rows.
Proof.
  unfold status_of, update_where_id.
  induction rows as [|r rows IH]; [done|].
  rewrite fmap_cons, !filter_cons.
  destruct (decide (Req.id r = v)) as [E|N].
  - rewrite decide_True by done. rewrite !fmap_cons, IH. done.
  - rewrite decide_False by done. done.
Qed.

Lemma update_where_id_others patch v rows :
  filter (λ r, Req.id r ≠ v) (update_where_id patch v rows)
  = filter (λ r, Req.id r ≠ v) rows.
Proof.
  unfold update_where_id.
  induction rows as [|r rows IH]; [done|].
  rewrite fmap_cons, !filter_cons.
  destruct (decide (Req.id r = v)) as [E|N].
  - rewrite decide_False by (simpl; intros ?; done).
    rewrite decide_False by (intros ?; done). done.
  - rewrite !decide_True by done. by f_equal.
Qed.

(** C10: with no signed-in user, approve and reject issue the sign-in
    lookup and nothing else, leave both tables as they were, and report
    the failure on the console and in a destructive toast. *)
Theorem unauthenticated_no_write w request :
  session w = None →
  let a := handleApprove request in
  let r := handleReject request in
  (issued a w = [GetUser] ∧ filter is_write (issued a w) = [] ∧
   locations (exec a w) = locations w ∧
   location_requests (exec a w) = location_requests w ∧
   logged a w = [("Error approving request:", JsError "Not authenticated")] ∧
   shown a w = [ {| title := "Error"; description := "Failed to approve request";
                    variant := Some "destructive" |} ]) ∧
  (issued r w = [GetUser] ∧ filter is_write (issued r w) = [] ∧
   locations (exec r w) = locations w ∧
   location_requests (exec r w) = location_requests w ∧
   logged r w = [("Error rejecting request:", JsError "Not authenticated")] ∧
   shown r w = [ {| title := "Error"; description := "Failed to reject request";
                    variant := Some "destructive" |} ]).
Proof.
  intros Hs a r. subst a r. destruct w; simpl in Hs; subst.
  run_handler. done.
Qed.

Lemma unauthenticated_no_write_witness :
  session (service None []) = None ∧
  issued (handleApprove request_1) (service None []) = [GetUser] ∧
  issued (handleReject request_1) (service None []) = [GetUser].
Proof.
  pose proof (unauthenticated_no_write (service None []) request_1 eq_refl) as H.
  simpl in H. destruct H as [(Ha & _) (Hr & _)]. done.
Defined.

(** C9: every insert the approve action issues goes to [locations] and
    carries the request's name, region, coordinates and both ThingSpeak
    credentials unchanged, with the status "normal"; when the action
    completes without error that row is the one row added to the table. *)
Theorem approve_row_copied w request :
  let m := handleApprove request in
  (∀ table row, Insert table row ∈ issued m w →
     table = "locations" ∧ copied_from request row ∧ Loc.status row = "normal") ∧
  (caught "Error approving request:" m w = false →
   ∃ row, locations (exec m w) = locations w ++ [row] ∧
          copied_from request row ∧ Loc.status row = "normal").
Proof.
  intros m. subst m. destruct w as [ls rs [u|] ck fs cs fl vs il pid ts co].
  2: { run_handler. split; [|done].
       intros table row Hin. apply list_elem_of_singleton in Hin. done. }
  split.
  - intros table row. split_faults fs; run_handler; intros Hin;
      repeat (apply elem_of_cons in Hin as [Hin|Hin]; [try done|]);
      try (by apply elem_of_nil in Hin);
      by inversion Hin.
  - split_faults fs; run_handler; intros Hc; try done;
      (eexists; split; [reflexivity|done]).
Qed.

Lemma approve_row_copied_witness :
  Insert "locations"
    {| Loc.name := "Depot"; Loc.region := "North"; Loc.latitude := 12.5;
       Loc.longitude := 77.25; Loc.thingspeak_channel_id := "2001";
       Loc.thingspeak_read_key := "KEY1"; Loc.status := "normal" |}
    ∈ issued (handleApprove request_1) (service (Some reviewer) []) ∧
  ∃ row, locations (exec (handleApprove request_1) (service (Some reviewer) []))
         = [row] ∧ copied_from request_1 row ∧ Loc.status row = "normal".
Proof.
  pose proof (approve_row_copied (service (Some reviewer) []) request_1) as [_ H].
  split; [vm_compute; apply elem_of_cons; right; apply elem_of_cons; by left|].
  apply H. reflexivity.
Defined.

(** C3: the approve action is two remote writes in a row.  When the insert
    succeeds and the update that follows fails, the new row stays in
    [locations], [location_requests] is as it was (a pending request stays
    pending), the failing update is the last call issued, and the failure
    is reported. *)
Theorem approve_not_atomic w request u msg :
  session w = Some u →
  upcoming 0 w = None →
  upcoming 1 w = Some msg →
  let m := handleApprove request in
  ∃ row patch,
    issued m w = [GetUser; Insert "locations" row;
                  Update "location_requests" patch "id" (Req.id request)] ∧
    locations (exec m w) = locations w ++ [row] ∧
    location_requests (exec m w) = location_requests w ∧
    (status_of (Req.id request) (location_requests w) = [Some "pending"] →
     status_of (Req.id request) (location_requests (exec m w)) = [Some "pending"]) ∧
    logged m w = [("Error approving request:", RemoteError msg)].
Proof.
  intros Hs H0 H1 m. subst m.
  destruct w as [ls rs s ck fs cs fl vs il pid ts co]. simpl in Hs. subst s.
  split_faults fs; run_handler; try done.
  all: injection H1 as ->; do 2 eexists; repeat split; done.
Qed.

Lemma approve_not_atomic_witness :
  let w := service (Some reviewer) [None; Some "timeout"] in
  let w' := exec (handleApprove request_1) w in
  length (locations w') = 1 ∧
  status_of "r1" (location_requests w') = [Some "pending"] ∧
  filter is_write (drop 3 (issued (handleApprove request_1) w)) = [].
Proof.
  destruct (approve_not_atomic (service (Some reviewer) [None; Some "timeout"])
              request_1 reviewer "timeout" eq_refl eq_refl eq_refl)
    as (row & patch & Hi & Hl & Hr & Hp & Hc).
  cbv zeta. rewrite Hi, Hl, Hr. done.
Defined.

(** C2: when the approve action completes without error, the writes it
    issued are one insert into [locations] followed by one update of
    [location_requests]; the update is keyed on the request's id and sets
    the status "approved": one row is added to [locations], the rows with
    that id become approved (a single pending row becomes a single approved
    row) and the rows with any other id are left as they were. *)
Theorem approve_success_writes w request :
  caught "Error approving request:" (handleApprove request) w = false →
  let m := handleApprove request in
  let v := Req.id request in
  ∃ row patch,
    filter is_write (issued m w)
      = [Insert "locations" row; Update "location_requests" patch "id" v] ∧
    length (filter (is_insert_into "locations") (issued m w)) = 1 ∧
    length (filter (is_update_of "location_requests") (issued m w)) = 1 ∧
    Req.p_status patch = "approved" ∧
    locations (exec m w) = locations w ++ [row] ∧
    status_of v (location_requests (exec m w))
      = (λ _, Some "approved") <$> status_of v (location_requests w) ∧
    (status_of v (location_requests w) = [Some "pending"] →
     status_of v (location_requests (exec m w)) = [Some "approved"]) ∧
    filter (λ r, Req.id r ≠ v) (location_requests (exec m w))
      = filter (λ r, Req.id r ≠ v) (location_requests w).
Proof.
  intros Hc m v. subst m v.
  destruct w as [ls rs [u|] ck fs cs fl vs il pid ts co]; [|by run_handler].
  split_faults fs; run_handler; try done.
  all: do 2 eexists; split; [reflexivity|].
  all: rewrite status_of_update_where_id, update_where_id_others.
  all: repeat split; try done.
  all: by intros ->.
Qed.

Lemma approve_success_writes_witness :
  let w := service (Some reviewer) [] in
  let m := handleApprove request_1 in
  caught "Error approving request:" m w = false ∧
  length (filter is_write (issued m w)) = 2 ∧
  length (locations (exec m w)) = 1 ∧
  status_of "r1" (location_requests (exec m w)) = [Some "approved"].
Proof.
  destruct (approve_success_writes (service (Some reviewer) []) request_1 eq_refl)
    as (row & patch & Hw & _ & _ & _ & Hl & _ & Hp & _).
  cbv zeta. rewrite Hw, Hl. split; [reflexivity|]. split; [done|]. split; [done|].
  apply Hp. reflexivity.
Defined.

(** C4, as the code has it: the reject action never inserts into
    [locations] and leaves that table as it was; when it completes without
    error it sets the status of the rows with the request's id to
    "rejected" (a single pending row becomes a single rejected row) and
    leaves the rows with any other id as they were. *)
Theorem reject_no_location w request :
  let m := handleReject request in
  let v := Req.id request in
  locations (exec m w) = locations w ∧
  (∀ table row, Insert table row ∉ issued m w) ∧
  (caught "Error rejecting request:" m w = false →
   status_of v (location_requests (exec m w))
     = (λ _, Some "rejected") <$> status_of v (location_requests w) ∧
   (status_of v (location_requests w) = [Some "pending"] →
    status_of v (location_requests (exec m w)) = [Some "rejected"]) ∧
   filter (λ r, Req.id r ≠ v) (location_requests (exec m w))
     = filter (λ r, Req.id r ≠ v) (location_requests w)).
Proof.
  intros m v. subst m v.
  destruct w as [ls rs [u|] ck fs cs fl vs il pid ts co].
  2: { run_handler. repeat split; try done.
       intros table row Hin. apply list_elem_of_singleton in Hin. done. }
  split_faults fs; run_handler.
  all: split; [done|]; split.
  all: try (intros table row Hin;
            repeat (apply elem_of_cons in Hin as [Hin|Hin]; [done|]);
            by apply elem_of_nil in Hin).
  all: intros Hc; try done.
  all: rewrite status_of_update_where_id, update_where_id_others.
  all: repeat split; try done.
  all: by intros ->.
Qed.

Lemma reject_no_location_witness :
  let w := service (Some reviewer) [] in
  let m := handleReject request_1 in
  caught "Error rejecting request:" m w = false ∧
  locations (exec m w) = [] ∧
  status_of "r1" (location_requests (exec m w)) = [Some "rejected"].
Proof.
  destruct (reject_no_location (service (Some reviewer) []) request_1)
    as (Hl & _ & H).
  destruct (H eq_refl) as (_ & Hp & _).
  cbv zeta. split; [reflexivity|]. split; [apply Hl|]. apply Hp. reflexivity.
Defined.

(** C4, as stated, fails when nobody is signed in: the pending request
    stays pending. *)
Lemma reject_signed_out_counterexample :
  ¬ reject_always_rejects (service None []) request_1.
Proof.
  unfold reject_always_rejects. intros H.
  destruct (H eq_refl) as [Hs _]. vm_compute in Hs. discriminate Hs.
Qed.

(** *** The lifecycle of a request *)



(** A refetch whose promise was dropped and whose answer arrives at once
    is [fetchPendingRequests] run to its end. *)
Lemma answer_at_once w :
  step (Answer (length (in_flight w))) (exec unawaited_fetchPendingRequests w)
  = exec fetchPendingRequests w.
Proof.
  destruct w as [ls rs s ck fs cs fl vs il pid ts co].
  split_faults fs; run_handler.
  all: rewrite lookup_app_r by done; rewrite Nat.sub_diag; simpl.
  all: rewrite delete_middle, app_nil_r; reflexivity.
Qed.






(** *** Further facts on the three handlers *)

#[local] Instance newer_first_total : Total newer_first.
Proof. intros a b. unfold newer_first. apply String.leb_total. Qed.

(** A successful fetch lists exactly the pending rows of the table, each
    once, newest first, ends the loading state, reports nothing, and is a
    single read. *)
Theorem fetch_pending_success w :
  upcoming 0 w = None →
  let m := fetchPendingRequests in
  requests (exec m w)
    ≡ₚ filter (λ r, Req.status r = Some "pending") (location_requests w) ∧
  Sorted newer_first (requests (exec m w)) ∧
  isLoading (exec m w) = false ∧
  issued m w = [Select "location_requests" "status" "pending" "created_at"] ∧
  location_requests (exec m w) = location_requests w ∧
  locations (exec m w) = locations w ∧
  logged m w = [] ∧ shown m w = [].
Proof.
  intros H0 m. subst m.
  destruct w as [ls rs s ck fs cs fl vs il pid ts co].
  destruct fs as [|[?|] ?]; run_handler; try done.
  all: rewrite !drop_all.
  all: repeat split; try done.
  all: try apply merge_sort_Permutation.
  all: apply (Sorted_merge_sort newer_first).
Qed.

Lemma fetch_pending_success_witness :
  requests (exec fetchPendingRequests (mounting review_desk)) = [request_1] ∧
  isLoading (exec fetchPendingRequests (mounting review_desk)) = false.
Proof.
  destruct (fetch_pending_success (mounting review_desk) eq_refl)
    as (_ & _ & Hl & _).
  split; [reflexivity|exact Hl].
Defined.

(** A failed fetch keeps the list the view had, ends the loading state,
    and reports the failure on the console and in a destructive toast; it
    does not throw. *)
Theorem fetch_pending_failure w msg :
  upcoming 0 w = Some msg →
  let m := fetchPendingRequests in
  requests (exec m w) = requests w ∧
  isLoading (exec m w) = false ∧
  (m w).1 = Ok tt ∧
  logged m w = [("Error fetching requests:", RemoteError msg)] ∧
  shown m w = [ {| title := "Error";
                   description := "Failed to fetch pending requests";
                   variant := Some "destructive" |} ] ∧
  location_requests (exec m w) = location_requests w.
Proof.
  intros H0 m. subst m.
  destruct w as [ls rs s ck fs cs fl vs il pid ts co].
  destruct fs as [|[?|] ?]; run_handler; try done.
  by injection H0 as ->.
Qed.

Lemma fetch_pending_failure_witness :
  requests (exec fetchPendingRequests (service None [Some "timeout"]))
  = [request_1].
Proof.
  destruct (fetch_pending_failure (service None [Some "timeout"]) "timeout" eq_refl)
    as (Hr & _).
  exact Hr.
Defined.

(** When the insert of an approval fails, no update is issued and no
    refetch either: both tables are as they were and the failure is
    reported. *)
Theorem approve_insert_failure w request u msg :
  session w = Some u →
  upcoming 0 w = Some msg →
  let m := handleApprove request in
  (∃ row, issued m w = [GetUser; Insert "locations" row]) ∧
  locations (exec m w) = locations w ∧
  location_requests (exec m w) = location_requests w ∧
  requests (exec m w) = requests w ∧
  logged m w = [("Error approving request:", RemoteError msg)] ∧
  shown m w = [ {| title := "Error"; description := "Failed to approve request";
                   variant := Some "destructive" |} ].
Proof.
  intros Hs H0 m. subst m.
  destruct w as [ls rs s ck fs cs fl vs il pid ts co]. simpl in Hs. subst s.
  destruct fs as [|[?|] ?]; run_handler; try done.
  injection H0 as ->. split; [by eexists|done].
Qed.

Lemma approve_insert_failure_witness :
  let w := service (Some reviewer) [Some "denied"] in
  locations (exec (handleApprove request_1) w) = [] ∧
  status_of "r1" (location_requests (exec (handleApprove request_1) w))
  = [Some "pending"].
Proof.
  destruct (approve_insert_failure (service (Some reviewer) [Some "denied"])
              request_1 reviewer "denied" eq_refl eq_refl)
    as (_ & Hl & Hr & _).
  cbv zeta. rewrite Hl, Hr. done.
Defined.

(** When the update of a rejection fails, the requests table is as it was,
    no refetch is issued, and the failure is reported. *)
Theorem reject_update_failure w request u msg :
  session w = Some u →
  upcoming 0 w = Some msg →
  let m := handleReject request in
  (∃ patch, issued m w
            = [GetUser; Update "location_requests" patch "id" (Req.id request)]) ∧
  location_requests (exec m w) = location_requests w ∧
  requests (exec m w) = requests w ∧
  logged m w = [("Error rejecting request:", RemoteError msg)] ∧
  shown m w = [ {| title := "Error"; description := "Failed to reject request";
                   variant := Some "destructive" |} ].
Proof.
  intros Hs H0 m. subst m.
  destruct w as [ls rs s ck fs cs fl vs il pid ts co]. simpl in Hs. subst s.
  destruct fs as [|[?|] ?]; run_handler; try done.
  injection H0 as ->. split; [by eexists|done].
Qed.

Lemma reject_update_failure_witness :
  let w := service (Some reviewer) [Some "denied"] in
  status_of "r1" (location_requests (exec (handleReject request_1) w))
  = [Some "pending"].
Proof.
  destruct (reject_update_failure (service (Some reviewer) [Some "denied"])
              request_1 reviewer "denied" eq_refl eq_refl)
    as (_ & Hr & _).
  cbv zeta. rewrite Hr. done.
Defined.

(** Whatever the service answers, approve and reject end with
    [processingId] back to [null] and do not throw: every failure is
    caught inside the handler. *)
Theorem handlers_settle w request :
  processingId (exec (handleApprove request) w) = None ∧
  (handleApprove request w).1 = Ok tt ∧
  processingId (exec (handleReject request) w) = None ∧
  (handleReject request w).1 = Ok tt.
Proof.
  destruct w as [ls rs [u|] ck fs cs fl vs il pid ts co].
  - split_faults fs; run_handler; done.
  - run_handler. done.
Qed.

(** Approval does not look for an existing location: on a service whose
    calls all succeed, approving the same request twice adds the same row
    to [locations] twice. *)
Theorem approve_twice_duplicates w request u :
  session w = Some u →
  faults w = [] →
  let m := handleApprove request in
  ∃ row, copied_from request row ∧
         locations (exec m (exec m w)) = locations w ++ [row; row].
Proof.
  intros Hs Hf m. subst m.
  destruct w as [ls rs s ck fs cs fl vs il pid ts co]. simpl in *. subst s fs.
  run_handler. eexists. split; [|reflexivity]. done.
Qed.

Lemma approve_twice_duplicates_witness :
  length (locations (exec (handleApprove request_1)
                       (exec (handleApprove request_1) review_desk))) = 2.
Proof.
  destruct (approve_twice_duplicates review_desk request_1 reviewer eq_refl eq_refl)
    as (row & _ & Hl).
  cbv zeta in Hl. rewrite Hl. reflexivity.
Defined.

(** What a row looks like after the update keyed on its id. *)
Lemma elem_of_update_where_id patch v rows r' :
  r' ∈ update_where_id patch v rows →
  ∃ r, r ∈ rows ∧
       (Req.id r = v ∧ r' = Req.apply patch r ∨ Req.id r ≠ v ∧ r' = r).
Proof.
  unfold update_where_id. intros (r & -> & Hr)%list_elem_of_fmap.
  exists r. split; [done|]. case_decide; auto.
Qed.

(** A successful approval or rejection records who reviewed the request
    and when: every row with the request's id ends with [reviewed_by] the
    signed-in user's id and [reviewed_at] the time of the action, and
    differs from a row of the table before in the three review columns
    only. *)
Theorem review_recorded w request u (approve : bool) :
  session w = Some u →
  let m := if approve then handleApprove request else handleReject request in
  let label := if approve then "Error approving request:"
               else "Error rejecting request:" in
  caught label m w = false →
  ∀ r', r' ∈ location_requests (exec m w) → Req.id r' = Req.id request →
        Req.status r' = Some (if approve then "approved" else "rejected") ∧
        Req.reviewed_by r' = Some (uid u) ∧
        Req.reviewed_at r' = Some (clock w) ∧
        ∃ r, r ∈ location_requests w ∧ reviewed_from r r'.
Proof.
  intros Hs m label Hc r' Hr' Hid. subst m label.
  destruct w as [ls rs s ck fs cs fl vs il pid ts co]. simpl in Hs. subst s.
  destruct approve; split_faults fs; run_handler; try done.
  all: apply elem_of_update_where_id in Hr' as (r & Hr & [[E ->]|[N ->]]);
         [|done].
  all: repeat split; try done.
  all: exists r; split; [done|]; by repeat split.
Qed.

Lemma review_recorded_witness :
  let r' := Req.apply {| Req.p_status := "rejected"; Req.p_reviewed_by := "admin";
                         Req.p_reviewed_at := "2025-01-03T08:00:00Z" |} request_1 in
  r' ∈ location_requests (exec (handleReject request_1) review_desk) ∧
  Req.reviewed_by r' = Some (uid reviewer) ∧
  Req.reviewed_at r' = Some (clock review_desk) ∧
  ∃ r, r ∈ location_requests review_desk ∧ reviewed_from r r'.
Proof.
  cbv zeta.
  assert (Req.apply {| Req.p_status := "rejected"; Req.p_reviewed_by := "admin";
                       Req.p_reviewed_at := "2025-01-03T08:00:00Z" |} request_1
            ∈ location_requests (exec (handleReject request_1) review_desk)) as Hin
    by (vm_compute; apply list_elem_of_here).
  destruct (review_recorded review_desk request_1 reviewer false eq_refl eq_refl
              _ Hin eq_refl) as (_ & Hb & Ha & Hr).
  by repeat split.
Defined.

(** What one event of the view does to the log and the tables: the calls
    it adds are reads and writes of the expected kind, the requests table
    keeps its rows' ids in place, and [locations] only grows at its end. *)
Lemma step_summary ev w :
  ∃ new, calls (step ev w) = calls w ++ new ∧
         Forall review_write new ∧
         Req.id <$> location_requests (step ev w) = Req.id <$> location_requests w ∧
         locations w `prefix_of` locations (step ev w).
Proof.
  assert (∀ request (approve : bool),
            let m := if approve then handleApprove request else handleReject request in
            ∃ new, calls (exec m w) = calls w ++ new ∧
                   Forall review_write new ∧
                   Req.id <$> location_requests (exec m w)
                     = Req.id <$> location_requests w ∧
                   locations w `prefix_of` locations (exec m w)) as Hact.
  { intros request approve m. subst m.
    destruct w as [ls rs [u|] ck fs cs fl vs il pid ts co].
    - destruct approve; split_faults fs; run_handler.
      all: eexists; split; [reflexivity|].
      all: rewrite ?update_where_id_ids.
      all: split;
             [repeat first [apply Forall_nil_2 | apply Forall_cons_2];
              simpl; naive_solver|].
      all: split; [done|].
      all: first [done | by apply prefix_app_r].
    - destruct approve; run_handler.
      all: eexists; split; [reflexivity|].
      all: split; [repeat constructor|done]. }
  destruct ev as [|k|i|i]; cbn [step].
  - clear Hact. destruct w as [ls rs s ck fs cs fl vs il pid ts co].
    unfold mounting. destruct fs as [|[?|] ?]; run_handler.
    all: eexists; split; [reflexivity|].
    all: split; [repeat constructor|done].
  - clear Hact. destruct (in_flight w !! k) as [[data [e|]]|].
    all: try (destruct w as [ls rs s ck fs cs fl vs il pid ts co]; run_handler).
    all: exists []; rewrite app_nil_r; done.
  - destruct (card i w) as [request|].
    + apply (Hact request true).
    + exists []. rewrite app_nil_r. done.
  - destruct (card i w) as [request|].
    + apply (Hact request false).
    + exists []. rewrite app_nil_r. done.
Qed.

(** Through any sequence of mounts, answers and clicks the view never adds, drops
    or moves a row of [location_requests], and never drops or rewrites a
    row of [locations]: the table it started from stays as a prefix. *)
Theorem run_keeps_rows evs w :
  Req.id <$> location_requests (run evs w) = Req.id <$> location_requests w ∧
  locations w `prefix_of` locations (run evs w).
Proof.
  revert w. induction evs as [|ev evs IH]; intros w; [done|].
  cbn [run foldl]. fold (run evs (step ev w)).
  destruct (step_summary ev w) as (new & _ & _ & Hid & Hpre).
  destruct (IH (step ev w)) as [Hid' Hpre'].
  split; [congruence|by etrans].
Qed.

(** Every write the view issues, through any sequence of mounts, answers
    and clicks, is an insert into "locations" with the status "normal" or an
    update of "location_requests" filtered on "id" that sets the status
    "approved" or "rejected". *)
Theorem run_writes_reviewed evs w :
  Forall review_write (calls w) → Forall review_write (calls (run evs w)).
Proof.
  revert w. induction evs as [|ev evs IH]; intros w Hw; [done|].
  cbn [run foldl]. fold (run evs (step ev w)).
  apply IH. destruct (step_summary ev w) as (new & -> & Hnew & _).
  by apply Forall_app.
Qed.

Lemma run_writes_reviewed_witness :
  Forall review_write
    (calls (run [Mount; Answer 0; ClickApprove 0; ClickReject 0; Answer 1; Answer 0]
              review_desk)).
Proof. apply run_writes_reviewed. constructor. Defined.

End PendingFacts.

(** ** The location-detail view *)

Section DetailsFacts.

Import Details.

Implicit Types (w : World) (location : option Location).

#[local] Hint Unfold
  fetchSensorData fetchHistoricalData fetchLocationData handleRefresh
  effect run_cleanup run_callback unrendered
  from_locations_select_single functions_invoke
  Details.next_fault next_response
  Details.toast Details.console_error setLocation setSensorData
  setHistoricalData setRawData Details.setIsLoading setIsRefreshing
  setInterval clearInterval Details.unawaited Details.issue Details.issued
  try_catch try_catch_finally throw gets modify exec
  mbind M_bind mret M_ret : handlers.

(** Runs the functions of the view on a world whose fields are variables,
    splitting on whatever the run inspects. *)
Ltac view_cbn :=
  cbn -[filter Js.truthy channel_of read_key_of latest_body history_body] in *.

Ltac run_view :=
  autounfold with handlers in *; view_cbn;
  repeat match goal with
         | |- context [Js.truthy ?x] => destruct (Js.truthy x) eqn:?
         end;
  view_cbn;
  repeat (match goal with
          | |- context [match ?x with _ => _ end] =>
              lazymatch x with
              | context [match _ with _ => _ end] => fail
              | _ => destruct x eqn:?
              end
          end;
          view_cbn).

Ltac compose_cbn :=
  cbn -[filter Js.truthy channel_of read_key_of latest_body history_body
        has_credentials telemetry
        fetchSensorData fetchHistoricalData fetchLocationData handleRefresh] in *.

Lemma grows_trans a b w w1 w2 :
  grows a w w1 → grows b w1 w2 → grows (a ++ b) w w2.
Proof.
  unfold grows. intros (Hc & Ht & Hn & Hu) (Hc' & Ht' & Hn' & Hu').
  rewrite Hc', Hc, Ht', Ht, Hn', Hn, Hu', Hu, app_assoc. done.
Qed.

Lemma fetchSensorData_spec location w :
  ∃ w', fetchSensorData location w = (Ok tt, w') ∧
        grows (if has_credentials location
               then [Invoke "thingspeak-service" (latest_body location)]
               else []) w w'.
Proof.
  unfold has_credentials. destruct w. run_view.
  all: eexists; split; [reflexivity|].
  all: unfold grows; simpl; by rewrite ?app_nil_r.
Qed.

Lemma fetchHistoricalData_spec location w :
  ∃ w', fetchHistoricalData location w = (Ok tt, w') ∧
        grows (if has_credentials location
               then [Invoke "thingspeak-service" (history_body location)]
               else []) w w'.
Proof.
  unfold has_credentials. destruct w. run_view.
  all: eexists; split; [reflexivity|].
  all: unfold grows; simpl; by rewrite ?app_nil_r.
Qed.

(** Replaces a call of one of the two fetch functions by its summary. *)
Ltac use_fetch :=
  match goal with
  | |- context [fetchSensorData ?l ?s] =>
      let E := fresh "E" in
      destruct (fetchSensorData_spec l s) as (? & E & ?); rewrite E; clear E
  | |- context [fetchHistoricalData ?l ?s] =>
      let E := fresh "E" in
      destruct (fetchHistoricalData_spec l s) as (? & E & ?); rewrite E; clear E
  end; compose_cbn.

(** Opens the summaries collected so far. *)
Ltac split_grows :=
  unfold grows in *;
  repeat match goal with
         | H : _ ∧ _ |- _ => destruct H
         end.

Ltac rewrite_calls :=
  repeat match goal with
         | H : calls _ = _ |- _ => rewrite H; clear H
         end.

Lemma handleRefresh_spec location w :
  ∃ w', handleRefresh location w = (Ok tt, w') ∧ grows (telemetry location) w w'.
Proof.
  unfold handleRefresh, setIsRefreshing, Details.toast, modify, mbind, M_bind.
  compose_cbn. use_fetch. use_fetch.
  eexists; split; [reflexivity|].
  unfold telemetry. eapply grows_trans; [eassumption|].
  unfold grows in *. compose_cbn. done.
Qed.

Lemma wire_shape_telemetry location : Forall wire_shape (telemetry location).
Proof.
  unfold telemetry. destruct (has_credentials location) eqn:E; [|by constructor].
  repeat constructor; try done; exists location; auto.
Qed.

Lemma fetchLocationData_spec route_id location w :
  ∃ w' new, fetchLocationData route_id location w = (Ok tt, w') ∧
            grows (SelectSingle "locations" "id" route_id :: new) w w' ∧
            (new = [] ∨
             new = telemetry location ∧
             ∃ row, row ∈ db_locations w ∧ id row = route_id ∧
                    has_credentials (Some row) = true).
Proof.
  unfold fetchLocationData, try_catch_finally, from_locations_select_single,
    Details.next_fault, Details.issue, Details.setIsLoading, setLocation,
    Details.toast, throw, gets, modify, mbind, M_bind, mret, M_ret.
  compose_cbn.
  destruct (faults w) as [|[e|] rest]; compose_cbn.
  2: { do 2 eexists. split; [reflexivity|]. split; [|by left].
       unfold grows. compose_cbn. done. }
  all: destruct (filter (λ row, id row = route_id) (db_locations w))
         as [|row [|]] eqn:Hrow; compose_cbn.
  all: try (do 2 eexists; split; [reflexivity|]; split; [|by left];
            unfold grows; compose_cbn; done).
  all: destruct (Js.truthy (thingspeak_channel_id row)
                 && Js.truthy (thingspeak_read_key row)) eqn:Hc; compose_cbn.
  all: try (do 2 eexists; split; [reflexivity|]; split; [|by left];
            unfold grows; compose_cbn; done).
  all: use_fetch; use_fetch.
  all: do 2 eexists; split; [reflexivity|]; split.
  all: try (unfold telemetry; split_grows; compose_cbn;
            repeat split; try congruence;
            etrans; [eassumption|]; rewrite_calls; by rewrite <- ?app_assoc).
  all: right; split; [done|]; exists row.
  all: assert (row ∈ filter (λ row, id row = route_id) (db_locations w)) as Hin
         by (rewrite Hrow; apply list_elem_of_here).
  all: apply list_elem_of_filter in Hin as [? ?]; done.
Qed.

Lemma effect_spec route_id location w :
  let w' := exec (effect route_id location) w in
  ∃ new,
    calls w' = calls w ++ SelectSingle "locations" "id" route_id :: new ∧
    (new = [] ∨
     new = telemetry location ∧
     ∃ row, row ∈ db_locations w ∧ id row = route_id ∧
            has_credentials (Some row) = true) ∧
    timers w' = timers w ++ [{| handle := next_handle w; delay := 10000;
                                callback := FetchSensorData location |}] ∧
    cleanup w' = Some (next_handle w).
Proof.
  unfold effect, Details.unawaited, setInterval, exec, gets, modify,
    mbind, M_bind, mret, M_ret.
  destruct (fetchLocationData_spec route_id location w) as (w1 & new & E & G & Hn).
  compose_cbn. rewrite E. compose_cbn.
  destruct G as (Hc & Ht & Hh & Hu).
  exists new. split; [exact Hc|]. split; [exact Hn|].
  rewrite Ht, Hh. by split.
Qed.

Lemma run_cleanup_spec w :
  ∃ w', run_cleanup w = (Ok tt, w') ∧
        calls w' = calls w ∧ cleanup w' = None ∧
        next_handle w' = next_handle w ∧ db_locations w' = db_locations w ∧
        timers w' = match cleanup w with
                    | Some h => filter (λ t, handle t ≠ h) (timers w)
                    | None => timers w
                    end.
Proof.
  unfold run_cleanup, clearInterval, gets, modify, mbind, M_bind, mret, M_ret.
  destruct (cleanup w) eqn:E; compose_cbn; eexists; (split; [reflexivity|]);
    compose_cbn; by rewrite ?E.
Qed.

(** Every step adds calls of the expected shape to the log, and nothing
    else. *)
Lemma step_calls ev w :
  ∃ new, calls (step ev w) = calls w ++ new ∧ Forall wire_shape new.
Proof.
  destruct ev as [route_id|route_id|h| |]; cbn [step].
  - destruct (effect_spec route_id None (unrendered w)) as (new & Hc & Hn & _).
    eexists. split; [exact Hc|]. constructor; [done|].
    destruct Hn as [->|[-> _]]; [done|apply wire_shape_telemetry].
  - unfold exec, mbind, M_bind.
    destruct (run_cleanup_spec w) as (w1 & E & Hc1 & _). rewrite E.
    destruct (effect_spec route_id (location w) w1) as (new & Hc & Hn & _).
    unfold exec in Hc. rewrite Hc, Hc1.
    eexists. split; [done|]. constructor; [done|].
    destruct Hn as [->|[-> _]]; [done|apply wire_shape_telemetry].
  - destruct (filter _ _) as [|[h' d [captured]] ?].
    { exists []. by rewrite app_nil_r. }
    cbn [callback run_callback]. unfold exec.
    destruct (fetchSensorData_spec captured w) as (w1 & -> & Hc & _).
    eexists. split; [exact Hc|].
    destruct (has_credentials captured) eqn:E; [|done].
    apply Forall_singleton. split; [done|]. exists captured. auto.
  - destruct (isLoading w || isRefreshing w), (location w) as [l|] eqn:El;
      try (exists []; by rewrite app_nil_r).
    unfold exec.
    destruct (handleRefresh_spec (Some l) w) as (w1 & -> & Hc & _).
    eexists. split; [exact Hc|]. apply wire_shape_telemetry.
  - unfold exec. destruct (run_cleanup_spec w) as (w1 & -> & Hc1 & _).
    exists []. by rewrite app_nil_r.
Qed.

Lemma run_wire_shape evs w :
  Forall wire_shape (calls w) → Forall wire_shape (calls (run evs w)).
Proof.
  revert w. induction evs as [|ev evs IH]; intros w Hw; [done|].
  simpl. apply IH. destruct (step_calls ev w) as (new & -> & Hn).
  by apply Forall_app.
Qed.

(** What the shape of a logged call says about the body sent. *)
Lemma wire_shape_sent function_name body :
  wire_shape (Invoke function_name body) →
  function_name = "thingspeak-service" ∧ sent_shape body.
Proof.
  intros [-> (location & Hc & Hb)]. split; [done|].
  apply andb_true_iff in Hc as [Hch Hk].
  destruct location as [[i n r s la lo [ch|] [k|]]|]; try done.
  destruct ch as [|a ch], k as [|b k]; try done.
  unfold sent_shape. destruct Hb as [->| ->]; simpl.
  all: split; [do 3 eexists; repeat split; try reflexivity; done|].
  all: first [left; done | right; done].
Qed.

(** A mounted view keeps polling under every event that leaves it mounted. *)
Lemma step_polling ev w : polling w → keeps_mounted ev → polling (step ev w).
Proof.
  intros (h & captured & Ht & Hu) Hev.
  destruct ev as [route_id|route_id|h'| |]; cbn [step keeps_mounted] in *; try done.
  - unfold exec, mbind, M_bind.
    destruct (run_cleanup_spec w) as (w1 & E & _ & _ & _ & _ & Ht1). rewrite E.
    destruct (effect_spec route_id (location w) w1) as (new & _ & _ & Ht2 & Hu2).
    unfold exec in *. rewrite Hu, Ht in Ht1. cbn [filter list_filter handle] in Ht1.
    rewrite decide_False in Ht1 by (intros ?; done).
    rewrite Ht1 in Ht2. by do 2 eexists.
  - destruct (filter _ _) as [|[h0 d [c0]] ?]; [by do 2 eexists|].
    cbn [callback run_callback]. unfold exec.
    destruct (fetchSensorData_spec c0 w) as (w1 & -> & _ & Ht1 & _ & Hu1).
    exists h, captured. cbn [snd]. by rewrite Ht1, Hu1.
  - destruct (isLoading w || isRefreshing w), (location w) as [l|];
      try by do 2 eexists.
    unfold exec.
    destruct (handleRefresh_spec (Some l) w) as (w1 & -> & _ & Ht1 & _ & Hu1).
    exists h, captured. cbn [snd]. by rewrite Ht1, Hu1.
Qed.

Lemma run_polling evs w :
  polling w → Forall keeps_mounted evs → polling (run evs w).
Proof.
  revert w. induction evs as [|ev evs IH]; intros w Hw Hevs; [done|].
  apply Forall_cons in Hevs as [Hev Hevs].
  simpl. apply IH; [|done]. by apply step_polling.
Qed.

(** With no timer registered, the passing of time issues nothing. *)
Lemma ticks_without_timer hs w :
  timers w = [] → run (Tick <$> hs) w = w.
Proof.
  intros Ht. induction hs as [|h hs IH]; [done|].
  rewrite fmap_cons. cbn [run foldl step]. rewrite Ht. exact IH.
Qed.

Lemma mount_polling route_id w :
  timers w = [] →
  timers (step (Mount route_id) w)
    = [{| handle := next_handle w; delay := 10000;
          callback := FetchSensorData None |}] ∧
  cleanup (step (Mount route_id) w) = Some (next_handle w).
Proof.
  intros Ht. cbn [step].
  destruct (effect_spec route_id None (unrendered w)) as (new & _ & _ & Ht1 & Hu1).
  rewrite Ht1, Hu1. unfold unrendered. compose_cbn. by rewrite Ht.
Qed.

Lemma tick_polling h captured w :
  timers w = [{| handle := h; delay := 10000;
                 callback := FetchSensorData captured |}] →
  drop (length (calls w)) (calls (step (Tick h) w))
  = if has_credentials captured
    then [Invoke "thingspeak-service" (latest_body captured)] else [].
Proof.
  intros Ht. cbn [step]. rewrite Ht. cbn [filter list_filter handle].
  rewrite decide_True by done. cbn [callback run_callback]. unfold exec.
  destruct (fetchSensorData_spec captured w) as (w1 & -> & Hc & _).
  cbn [snd]. by rewrite Hc, drop_app_length.
Qed.

(** From the mount on, and through every tick, refresh and route change,
    the view holds one timer with a delay of 10000 ms whose callback is a
    [fetchSensorData]; a run of it issues one request for the latest
    reading when the location that callback captured has both credentials,
    and nothing otherwise; the unmount clears the timer, after which no
    passing of time issues any call. *)
Lemma timer_while_mounted w route_id evs :
  timers w = [] →
  Forall keeps_mounted evs →
  let w1 := run evs (step (Mount route_id) w) in
  (∃ h captured,
     timers w1 = [{| handle := h; delay := 10000;
                     callback := FetchSensorData captured |}] ∧
     drop (length (calls w1)) (calls (step (Tick h) w1))
     = if has_credentials captured
       then [Invoke "thingspeak-service" (latest_body captured)] else []) ∧
  (let w2 := step Unmount w1 in
   timers w2 = [] ∧ ∀ hs, calls (run (Tick <$> hs) w2) = calls w2).
Proof.
  intros Ht Hevs w1.
  assert (polling w1) as (h & captured & Ht1 & Hu1).
  { apply run_polling; [|done].
    destruct (mount_polling route_id w Ht) as [Hm Hc]. by do 2 eexists. }
  split.
  - exists h, captured. split; [done|]. by apply tick_polling.
  - cbn zeta. cbn [step]. unfold exec.
    destruct (run_cleanup_spec w1) as (w2 & -> & _ & _ & _ & _ & Ht2).
    cbn [snd]. rewrite Hu1, Ht1 in Ht2. cbn [filter list_filter handle] in Ht2.
    rewrite decide_False in Ht2 by (intros ?; done).
    split; [done|]. intros hs. by rewrite ticks_without_timer.
Qed.

Lemma stays_keeps_mounted ev : stays_on_route ev → keeps_mounted ev.
Proof. by destruct ev. Qed.

(** C6, against the code: the effect registers one timer with a delay of
    10000 ms, but its callback is the [fetchSensorData] of the first
    render, whose [location] is [null].  As long as the route does not
    change, each run of the timer returns at the guard and issues no
    fetch, whatever the location loaded since, also one with both
    credentials; only the Refresh button reaches the telemetry function.
    The part of the claim on the unmount holds: the timer is cleared, and
    no passing of time issues a call afterwards. *)
Theorem poll_after_mount_is_silent w route_id evs h :
  timers w = [] →
  Forall stays_on_route evs →
  let w1 := run evs (step (Mount route_id) w) in
  timers w1 = [{| handle := next_handle w; delay := 10000;
                  callback := FetchSensorData None |}] ∧
  calls (step (Tick h) w1) = calls w1 ∧
  (let w2 := step Unmount w1 in
   timers w2 = [] ∧ ∀ hs, calls (run (Tick <$> hs) w2) = calls w2).
Proof.
  intros Ht Hevs w1.
  assert (timers w1 = [{| handle := next_handle w; delay := 10000;
                          callback := FetchSensorData None |}]) as Ht1.
  { subst w1. destruct (mount_polling route_id w Ht) as [Hm _].
    revert Hm. generalize (step (Mount route_id) w). clear Ht.
    induction evs as [|ev evs IH]; intros w0 Hm; [done|].
    apply Forall_cons in Hevs as [Hev Hevs]. cbn [run foldl].
    apply IH; [done|].
    destruct ev as [?|?|h'| |]; cbn [stays_on_route step] in *; try done.
    - destruct (filter _ _) as [|[h0 d [c0]] ?]; [done|].
      cbn [callback run_callback]. unfold exec.
      destruct (fetchSensorData_spec c0 w0) as (w2 & -> & _ & Ht2 & _).
      cbn [snd]. by rewrite Ht2.
    - destruct (isLoading w0 || isRefreshing w0), (location w0) as [l|]; try done.
      unfold exec.
      destruct (handleRefresh_spec (Some l) w0) as (w2 & -> & _ & Ht2 & _).
      cbn [snd]. by rewrite Ht2. }
  split; [exact Ht1|]. split.
  - cbn [step]. rewrite Ht1. cbn [filter list_filter handle].
    case_decide; [|done]. cbn [callback run_callback]. unfold exec.
    destruct (fetchSensorData_spec None w1) as (w2 & -> & Hc & _).
    cbn [snd]. rewrite Hc. apply app_nil_r.
  - apply (timer_while_mounted w route_id evs Ht).
    eapply Forall_impl; [exact Hevs|]. apply stays_keeps_mounted.
Qed.

Lemma poll_after_mount_is_silent_witness :
  let w1 := run [ClickRefresh; Tick 0]
              (step (Mount "L1") (service [depot] [InvokeData true reading])) in
  location w1 = Some depot ∧ has_credentials (location w1) = true ∧
  sensorData w1 = Some reading ∧
  calls (step (Tick 0) w1) = calls w1 ∧
  timers (step Unmount w1) = [].
Proof.
  destruct (poll_after_mount_is_silent
              (service [depot] [InvokeData true reading]) "L1"
              [ClickRefresh; Tick 0] 0) as (_ & Hc & Hu & _).
  - reflexivity.
  - repeat constructor.
  - cbv zeta. split; [reflexivity|]. split; [reflexivity|].
    split; [reflexivity|]. split; [exact Hc|exact Hu].
Defined.

(** C6, as stated, fails for a location with both credentials whose
    telemetry function answers: the timer runs and issues nothing. *)
Lemma polling_counterexample :
  ¬ polls_every_interval "L1" (service [depot] [InvokeData true reading]).
Proof.
  intros (t & Ht & _ & body & Hc & _).
  vm_compute in Ht. apply list_elem_of_singleton in Ht. subst t.
  vm_compute in Hc. discriminate Hc.
Qed.

(** C7: [fetchHistoricalData] issues a request exactly when the location
    it sees has both credentials, the request is the history request for
    that location, and it asks for 50 results; throughout any run of the
    view, every history request in the log is of that form. *)
Theorem history_request location w evs :
  (issued (fetchHistoricalData location) w
   = if has_credentials location
     then [Invoke "thingspeak-service" (history_body location)] else []) ∧
  Js.get "results" (history_body location) = Some (Js.JNum 50) ∧
  (Forall wire_shape (calls w) →
   ∀ c, c ∈ calls (run evs w) → is_history c = true →
        ∃ l, has_credentials l = true ∧
             c = Invoke "thingspeak-service" (history_body l) ∧
             Js.get "results" (history_body l) = Some (Js.JNum 50)).
Proof.
  split; [|split; [done|]].
  - unfold issued, exec.
    destruct (fetchHistoricalData_spec location w) as (w1 & -> & Hc & _).
    cbn [snd]. by rewrite Hc, drop_app_length.
  - intros Hw c Hin Hh.
    pose proof (run_wire_shape evs w Hw) as Hall.
    rewrite Forall_forall in Hall. specialize (Hall c Hin).
    destruct c as [|fn body]; [done|].
    destruct Hall as [-> (l & Hl & [->| ->])]; [done|].
    exists l. done.
Qed.

Lemma history_request_witness :
  let w := service [depot] [InvokeData true reading] in
  Invoke "thingspeak-service" (history_body (Some depot))
    ∈ calls (run [Mount "L1"; ClickRefresh] w) ∧
  ∃ l, has_credentials l = true ∧
       Invoke "thingspeak-service" (history_body (Some depot))
       = Invoke "thingspeak-service" (history_body l).
Proof.
  assert (Invoke "thingspeak-service" (history_body (Some depot))
            ∈ calls (run [Mount "L1"; ClickRefresh]
                       (service [depot] [InvokeData true reading]))) as Hin.
  { vm_compute. do 2 apply list_elem_of_further. apply list_elem_of_here. }
  split; [exact Hin|].
  destruct (history_request None (service [depot] [InvokeData true reading])
              [Mount "L1"; ClickRefresh]) as (_ & _ & H).
  destruct (H (Forall_nil_2 _) _ Hin eq_refl) as (l & Hl & E & _).
  by exists l.
Defined.

(** C8, as the code has it: every call of the telemetry function that a
    run of the view logs goes to "thingspeak-service" with a body that is
    [{action: "latest", location}] or [{action: "history", location,
    results: 50}], where [location] has exactly the fields
    [thingspeak_channel_id] and [thingspeak_read_key], both non-empty
    strings. *)
Theorem request_shape w evs function_name body :
  Forall wire_shape (calls w) →
  Invoke function_name body ∈ calls (run evs w) →
  function_name = "thingspeak-service" ∧ sent_shape body.
Proof.
  intros Hw Hin. apply wire_shape_sent.
  pose proof (run_wire_shape evs w Hw) as Hall.
  rewrite Forall_forall in Hall. by apply Hall.
Qed.

Lemma request_shape_witness :
  sent_shape (latest_body (Some depot)).
Proof.
  refine (proj2 (request_shape (service [depot] [InvokeData true reading])
                   [Mount "L1"; ClickRefresh] "thingspeak-service"
                   (latest_body (Some depot)) (Forall_nil_2 _) _)).
  vm_compute. apply list_elem_of_further, list_elem_of_here.
Defined.

(** C8, as stated, fails: the request for the latest reading that the
    Refresh button sends has no field [channel_id] or [read_key] in its
    location object. *)
Lemma request_fields_counterexample :
  ∃ body,
    Invoke "thingspeak-service" body
      ∈ calls (run [Mount "L1"; ClickRefresh]
                 (service [depot] [InvokeData true reading])) ∧
    ¬ stated_shape body.
Proof.
  exists (latest_body (Some depot)). split.
  - vm_compute. apply list_elem_of_further, list_elem_of_here.
  - intros (_ & (loc & Hl & Hk) & _). vm_compute in Hl.
    injection Hl as <-. vm_compute in Hk. discriminate Hk.
Qed.

(** *** Further facts on the functions of the view *)

Lemma same_view_refl w : same_view w w.
Proof. by repeat split. Qed.

Lemma same_view_trans w w1 w2 : same_view w w1 → same_view w1 w2 → same_view w w2.
Proof.
  unfold same_view. intros (? & ? & ? & ? & ? & ?) (? & ? & ? & ? & ? & ?).
  repeat split; congruence.
Qed.

Lemma fetchSensorData_view location w :
  ∃ w', fetchSensorData location w = (Ok tt, w') ∧
        same_view w w' ∧ historicalData w' = historicalData w.
Proof.
  destruct w. run_view.
  all: eexists; split; [reflexivity|]; by repeat split.
Qed.

Lemma fetchHistoricalData_view location w :
  ∃ w', fetchHistoricalData location w = (Ok tt, w') ∧
        same_view w w' ∧ sensorData w' = sensorData w ∧ rawData w' = rawData w.
Proof.
  destruct w. run_view.
  all: eexists; split; [reflexivity|]; by repeat split.
Qed.

(** The guard of the two fetch functions, in terms of [has_credentials]. *)
Lemma guard_closed location :
  has_credentials location = false →
  negb (Js.truthy (channel_of location))
  || negb (Js.truthy (read_key_of location)) = true.
Proof.
  unfold has_credentials. intros H. apply andb_false_iff in H.
  apply orb_true_iff. destruct H as [-> | ->]; auto.
Qed.

(** For a location that lacks a credential (or for no location at all)
    the two fetch functions return at once: not a call, not a log entry,
    no change of state. *)
Theorem fetch_without_credentials location w :
  has_credentials location = false →
  fetchSensorData location w = (Ok tt, w) ∧
  fetchHistoricalData location w = (Ok tt, w).
Proof.
  intros H%guard_closed. unfold fetchSensorData, fetchHistoricalData.
  rewrite H. done.
Qed.

Lemma fetch_without_credentials_witness :
  fetchSensorData (Some yard) (service [yard] []) = (Ok tt, service [yard] []) ∧
  fetchSensorData None (service [depot] []) = (Ok tt, service [depot] []).
Proof.
  split.
  - apply (fetch_without_credentials (Some yard)). reflexivity.
  - apply (fetch_without_credentials None). reflexivity.
Defined.

(** What [fetchSensorData] does with the answer, for a location with
    credentials: a successful answer becomes both [sensorData] and
    [rawData]; an error is logged on the console and the readings keep
    their previous values; an unsuccessful answer changes nothing.  In no
    case a toast is shown or an exception leaves the function. *)
Theorem fetchSensorData_outcomes location w :
  has_credentials location = true →
  let w' := exec (fetchSensorData location) w in
  (fetchSensorData location w).1 = Ok tt ∧
  toasts w' = toasts w ∧
  (∀ data, head (responses w) = Some (InvokeData true data) →
     sensorData w' = Some data ∧ rawData w' = Some data ∧
     console w' = console w) ∧
  (∀ e, head (responses w) = Some (InvokeError e) →
     sensorData w' = sensorData w ∧ rawData w' = rawData w ∧
     console w' = console w ++ [("Error fetching sensor data:", e)]) ∧
  (∀ data, head (responses w) = Some (InvokeData false data) →
     sensorData w' = sensorData w ∧ rawData w' = rawData w ∧
     console w' = console w).
Proof.
  intros [Hc Hk]%andb_true_iff w'. subst w'.
  unfold fetchSensorData. rewrite Hc, Hk. destruct w.
  autounfold with handlers; view_cbn.
  destruct responses0 as [|[e|[|] d] rest]; view_cbn.
  all: (split; [done|]); (split; [done|]); split; [|split].
  all: intros ? [=]; subst; done.
Qed.

Lemma fetchSensorData_outcomes_witness :
  let w := service [depot] [InvokeData true reading] in
  sensorData (exec (fetchSensorData (Some depot)) w) = Some reading ∧
  rawData (exec (fetchSensorData (Some depot)) w) = Some reading.
Proof.
  destruct (fetchSensorData_outcomes (Some depot)
              (service [depot] [InvokeData true reading]) eq_refl)
    as (_ & _ & H & _).
  destruct (H reading eq_refl) as (Hs & Hr & _). by split.
Defined.

(** [handleRefresh] ends with the toast "Data refreshed" and with
    [isRefreshing] back to false whatever happened to the two requests:
    also when both fail, and also when none was sent. *)
Theorem handleRefresh_always_reports location w :
  let w' := exec (handleRefresh location) w in
  (handleRefresh location w).1 = Ok tt ∧
  toasts w' = toasts w ++ [refreshed] ∧
  isRefreshing w' = false ∧
  Details.location w' = Details.location w.
Proof.
  cbn zeta. unfold exec, handleRefresh, setIsRefreshing, Details.toast, modify,
    mbind, M_bind.
  compose_cbn.
  destruct (fetchSensorData_view location (set_isRefreshing true w))
    as (w1 & -> & V1 & _).
  compose_cbn.
  destruct (fetchHistoricalData_view location w1) as (w2 & -> & V2 & _).
  compose_cbn.
  destruct (same_view_trans _ _ _ V1 V2) as (Hl & _ & _ & Ht & _).
  compose_cbn. by rewrite Ht, Hl.
Qed.

(** Everything the summaries above say of one call of a fetch function. *)
Lemma fetchSensorData_full location w :
  ∃ w', fetchSensorData location w = (Ok tt, w') ∧
        grows (if has_credentials location
               then [Invoke "thingspeak-service" (latest_body location)]
               else []) w w' ∧
        same_view w w' ∧ historicalData w' = historicalData w ∧
        (has_credentials location = false → w' = w).
Proof.
  destruct (fetchSensorData_spec location w) as (w1 & E & G).
  destruct (fetchSensorData_view location w) as (w1' & E' & V & H).
  rewrite E in E'. injection E' as <-.
  exists w1. repeat split; try done; try apply G; try apply V.
  intros Hc%guard_closed. unfold fetchSensorData in E. rewrite Hc in E.
  by injection E.
Qed.

Lemma fetchHistoricalData_full location w :
  ∃ w', fetchHistoricalData location w = (Ok tt, w') ∧
        grows (if has_credentials location
               then [Invoke "thingspeak-service" (history_body location)]
               else []) w w' ∧
        same_view w w' ∧ sensorData w' = sensorData w ∧ rawData w' = rawData w ∧
        (has_credentials location = false → w' = w).
Proof.
  destruct (fetchHistoricalData_spec location w) as (w1 & E & G).
  destruct (fetchHistoricalData_view location w) as (w1' & E' & V & H & H').
  rewrite E in E'. injection E' as <-.
  exists w1. repeat split; try done; try apply G; try apply V.
  intros Hc%guard_closed. unfold fetchHistoricalData in E. rewrite Hc in E.
  by injection E.
Qed.

(** The outcomes of [fetchLocationData], by what the service answers. *)
Lemma fetchLocationData_cases route_id location w :
  ∃ w', fetchLocationData route_id location w = (Ok tt, w') ∧
        isLoading w' = false ∧ isRefreshing w' = isRefreshing w ∧
        timers w' = timers w ∧ next_handle w' = next_handle w ∧
        cleanup w' = cleanup w ∧
        match head (faults w),
              filter (λ row, id row = route_id) (db_locations w) with
        | Some (Some e), _ => load_failed route_id e w w'
        | _, [row] =>
            Details.location w' = Some row ∧ toasts w' = toasts w ∧
            (has_credentials location = false → same_readings w w')
        | _, _ => load_failed route_id (RemoteError "no single row") w w'
        end.
Proof.
  unfold fetchLocationData, try_catch_finally, from_locations_select_single,
    Details.next_fault, Details.issue, Details.setIsLoading, setLocation,
    Details.toast, throw, gets, modify, mbind, M_bind, mret, M_ret.
  unfold load_failed, load_error, same_readings.
  compose_cbn.
  destruct (faults w) as [|[e|] rest]; compose_cbn.
  2: { eexists. split; [reflexivity|]. compose_cbn. by repeat split. }
  all: destruct (filter (λ row, id row = route_id) (db_locations w))
         as [|row [|]] eqn:Hrow; compose_cbn.
  all: try (eexists; split; [reflexivity|]; compose_cbn; by repeat split).
  all: destruct (Js.truthy (thingspeak_channel_id row)
                 && Js.truthy (thingspeak_read_key row)) eqn:Hc; compose_cbn.
  all: try (eexists; split; [reflexivity|]; compose_cbn; by repeat split).
  all: match goal with
       | |- context [fetchSensorData ?l ?s] =>
           destruct (fetchSensorData_full l s) as (w1 & E1 & G1 & V1 & H1 & N1)
       end.
  all: rewrite E1; compose_cbn.
  all: destruct (fetchHistoricalData_full location w1)
         as (w2 & E2 & G2 & V2 & S2 & R2 & N2).
  all: rewrite E2; compose_cbn.
  all: eexists; split; [reflexivity|]; compose_cbn.
  all: destruct G1 as (_ & Gt1 & Gh1 & Gc1), G2 as (_ & Gt2 & Gh2 & Gc2).
  all: destruct V1 as (Vl1 & _ & Vr1 & Vt1 & _), V2 as (Vl2 & _ & Vr2 & Vt2 & _).
  all: compose_cbn.
  all: repeat split; try congruence.
  all: match goal with
       | Hn : has_credentials _ = false |- _ =>
           rewrite (N2 Hn), (N1 Hn); reflexivity
       end.
Qed.

(** When the read of the row returns an error, the view keeps the
    location and the readings it had, leaves the loading state, sends
    nothing to the telemetry function, and shows one destructive toast
    whose text is the message of an [Error] instance and "Unknown error"
    for any other error object. *)
Theorem load_service_error route_id location w e :
  head (faults w) = Some (Some e) →
  let w' := exec (fetchLocationData route_id location) w in
  load_failed route_id e w w' ∧ isLoading w' = false ∧
  description (load_error e)
  = match e with JsError message => message | RemoteError _ => "Unknown error" end.
Proof.
  intros Hf w'. subst w'. unfold exec.
  destruct (fetchLocationData_cases route_id location w)
    as (w1 & -> & Hl & _ & _ & _ & _ & Hm).
  rewrite Hf in Hm. by destruct e.
Qed.

Lemma load_service_error_witness :
  let w := set_faults [Some (JsError "offline")] (service [depot] []) in
  toasts (exec (fetchLocationData "L1" None) w)
  = [ {| title := "Error fetching location"; description := "offline";
         variant := Some "destructive" |} ].
Proof.
  destruct (load_service_error "L1" None
              (set_faults [Some (JsError "offline")] (service [depot] []))
              (JsError "offline") eq_refl) as ((_ & Ht & _) & _).
  exact Ht.
Defined.

(** When no row, or more than one row, of [locations] has the id of the
    route, the load fails like a service error: location and readings
    kept, one toast "Error fetching location", the read of the row as the
    only call, loading state left. *)
Theorem load_without_single_row route_id location w :
  length (filter (λ row, id row = route_id) (db_locations w)) ≠ 1 →
  let w' := exec (fetchLocationData route_id location) w in
  (∃ e, load_failed route_id e w w') ∧ isLoading w' = false.
Proof.
  intros Hn w'. subst w'. unfold exec.
  destruct (fetchLocationData_cases route_id location w)
    as (w1 & -> & Hl & _ & _ & _ & _ & Hm).
  split; [|done]. cbn [snd].
  destruct (head (faults w)) as [[e|]|],
    (filter (λ row, id row = route_id) (db_locations w)) as [|row [|]];
    try done; by eexists.
Qed.

Lemma load_without_single_row_witness :
  Details.location (exec (fetchLocationData "L9" None) (service [depot; yard] []))
  = None ∧
  isLoading (exec (fetchLocationData "L9" None) (service [depot; yard] [])) = false.
Proof.
  destruct (load_without_single_row "L9" None (service [depot; yard] []))
    as ((e & Hl & _) & Hi).
  { vm_compute. discriminate. }
  split; [exact Hl|exact Hi].
Defined.

(** When the read succeeds and exactly one row has the id of the route,
    that row becomes the location of the view, no toast is shown, and the
    loading state is left. *)
Theorem load_sets_location route_id location w row :
  default None (head (faults w)) = None →
  filter (λ row, id row = route_id) (db_locations w) = [row] →
  let w' := exec (fetchLocationData route_id location) w in
  Details.location w' = Some row ∧ id row = route_id ∧ row ∈ db_locations w ∧
  toasts w' = toasts w ∧ isLoading w' = false.
Proof.
  intros Hf Hrow w'. subst w'. unfold exec.
  destruct (fetchLocationData_cases route_id location w)
    as (w1 & -> & Hl & _ & _ & _ & _ & Hm).
  rewrite Hrow in Hm. cbn [snd].
  assert (row ∈ filter (λ row, id row = route_id) (db_locations w)) as Hin
    by (rewrite Hrow; apply list_elem_of_here).
  apply list_elem_of_filter in Hin as [Hid Hin].
  destruct (head (faults w)) as [[e|]|]; [done| |];
    destruct Hm as (Hloc & Ht & _); done.
Qed.

Lemma load_sets_location_witness :
  Details.location (exec (fetchLocationData "L1" None) (service [depot; yard] []))
  = Some depot.
Proof.
  destruct (load_sets_location "L1" None (service [depot; yard] []) depot
              eq_refl eq_refl) as (Hl & _).
  exact Hl.
Defined.

(** The view right after its mount. *)
Lemma mount_view route_id w :
  let w1 := step (Mount route_id) w in
  isLoading w1 = false ∧ isRefreshing w1 = false ∧
  sensorData w1 = None ∧ rawData w1 = None ∧ historicalData w1 = [] ∧
  match head (faults w),
        filter (λ row, id row = route_id) (db_locations w) with
  | Some (Some e), _ => Details.location w1 = None
  | _, [row] => Details.location w1 = Some row
  | _, _ => Details.location w1 = None
  end.
Proof.
  cbn zeta. cbn [step].
  unfold effect, Details.unawaited, setInterval, exec, gets, modify,
    mbind, M_bind, mret, M_ret.
  destruct (fetchLocationData_cases route_id None (unrendered w))
    as (w1 & E & Hl & Hr & _ & _ & _ & Hm).
  change (faults (unrendered w)) with (faults w) in Hm.
  change (db_locations (unrendered w)) with (db_locations w) in Hm.
  change (isRefreshing (unrendered w)) with false in Hr.
  rewrite E. cbn [snd fst].
  change (isLoading (set_cleanup ?a (set_next_handle ?b (set_timers ?c w1)))) with (isLoading w1).
  change (isRefreshing (set_cleanup ?a (set_next_handle ?b (set_timers ?c w1)))) with (isRefreshing w1).
  change (sensorData (set_cleanup ?a (set_next_handle ?b (set_timers ?c w1)))) with (sensorData w1).
  change (rawData (set_cleanup ?a (set_next_handle ?b (set_timers ?c w1)))) with (rawData w1).
  change (historicalData (set_cleanup ?a (set_next_handle ?b (set_timers ?c w1)))) with (historicalData w1).
  change (Details.location (set_cleanup ?a (set_next_handle ?b (set_timers ?c w1)))) with (Details.location w1).
  assert (has_credentials None = false) as Hn by (vm_compute; reflexivity).
  destruct (head (faults w)) as [[e|]|],
    (filter (λ row, id row = route_id) (db_locations w)) as [|row [|]].
  all: try (destruct Hm as (Hloc & _ & _ & Hs & Hw & Hh);
            split; [exact Hl|]; split; [exact Hr|]; by repeat split).
  all: destruct Hm as (Hloc & _ & Hm).
  all: destruct (Hm Hn) as (Hs & Hw & Hh).
  all: split; [exact Hl|]; split; [exact Hr|]; by repeat split.
Qed.

Lemma fetch_null w :
  fetchSensorData None w = (Ok tt, w) ∧ fetchHistoricalData None w = (Ok tt, w).
Proof. by unfold fetchSensorData, fetchHistoricalData. Qed.

(** With the timer of a fresh mount as the only timer, ticks leave the
    world as it is. *)
Lemma ticks_of_first_render hs h w :
  timers w = [{| handle := h; delay := 10000;
                 callback := FetchSensorData None |}] →
  run (Tick <$> hs) w = w.
Proof.
  intros Ht. induction hs as [|h' hs IH]; [done|].
  rewrite fmap_cons. cbn [run foldl step]. rewrite Ht.
  cbn [filter list_filter handle]. case_decide; [|exact IH].
  cbn [callback run_callback]. unfold exec.
  destruct (fetch_null w) as [-> _]. exact IH.
Qed.

(** After a fresh mount the timer runs the [fetchSensorData] of the first
    render: however often it fires, and whatever the service would answer,
    the world stays exactly as the mount left it, with no reading loaded. *)
Theorem polling_after_mount_changes_nothing w route_id hs :
  timers w = [] →
  let w1 := step (Mount route_id) w in
  run (Tick <$> hs) w1 = w1 ∧
  sensorData w1 = None ∧ rawData w1 = None ∧ historicalData w1 = [] ∧
  isLoading w1 = false.
Proof.
  intros Ht w1. subst w1.
  destruct (mount_polling route_id w Ht) as [Hm _].
  destruct (mount_view route_id w) as (Hl & _ & Hs & Hr & Hh & _).
  split; [by eapply ticks_of_first_render|]. done.
Qed.

Lemma polling_after_mount_changes_nothing_witness :
  let w1 := step (Mount "L1") (service [depot] [InvokeData true reading]) in
  Details.location w1 = Some depot ∧
  run (Tick <$> [0; 0; 0]) w1 = w1 ∧ sensorData w1 = None.
Proof.
  destruct (polling_after_mount_changes_nothing
              (service [depot] [InvokeData true reading]) "L1" [0; 0; 0] eq_refl)
    as (Hr & Hs & _).
  split; [reflexivity|]. by split.
Defined.

(** For a location with a channel id, the view shows the placeholder
    "Loading sensor data..." after its mount and keeps showing it through
    every tick of the timer: the readings do not appear on their own. *)
Theorem mount_shows_placeholder w route_id row hs :
  timers w = [] →
  default None (head (faults w)) = None →
  filter (λ row, id row = route_id) (db_locations w) = [row] →
  Js.truthy (thingspeak_channel_id row) = true →
  screen (run (Tick <$> hs) (step (Mount route_id) w)) = LoadingSensorData.
Proof.
  intros Ht Hf Hrow Hc.
  destruct (mount_polling route_id w Ht) as [Hm _].
  rewrite (ticks_of_first_render hs _ _ Hm).
  destruct (mount_view route_id w) as (Hl & _ & Hs & _ & _ & Hloc).
  rewrite Hrow in Hloc. unfold screen. rewrite Hl, Hs.
  destruct (head (faults w)) as [[e|]|]; [done| |]; by rewrite Hloc, Hc.
Qed.

Lemma mount_shows_placeholder_witness :
  screen (run (Tick <$> [0; 0])
            (step (Mount "L1") (service [depot; yard] [InvokeData true reading])))
  = LoadingSensorData.
Proof.
  by apply (mount_shows_placeholder
              (service [depot; yard] [InvokeData true reading]) "L1" depot).
Defined.

(** What [handleRefresh] does for a location that lacks a credential. *)
Lemma handleRefresh_nothing location w :
  has_credentials location = false →
  handleRefresh location w
  = (Ok tt, set_toasts (toasts w ++ [refreshed])
              (set_isRefreshing false (set_isRefreshing true w))).
Proof.
  intros Hg%guard_closed.
  unfold handleRefresh, fetchSensorData, fetchHistoricalData. rewrite Hg.
  reflexivity.
Qed.

(** For a loaded location that lacks a credential, the Refresh button
    sends nothing and changes nothing on the screen, and still reports
    "Data refreshed". *)
Theorem refresh_without_credentials w l :
  isLoading w = false →
  isRefreshing w = false →
  Details.location w = Some l →
  has_credentials (Some l) = false →
  let w' := step ClickRefresh w in
  calls w' = calls w ∧
  toasts w' = toasts w ++ [refreshed] ∧
  same_readings w w' ∧
  screen w' = screen w.
Proof.
  intros Hl Hr Hloc Hc w'. subst w'. cbn [step]. rewrite Hl, Hr, Hloc.
  cbn [orb]. unfold exec. rewrite (handleRefresh_nothing (Some l) w Hc).
  cbn [snd]. unfold screen. by repeat split.
Qed.

Lemma refresh_without_credentials_witness :
  let w := step (Mount "L0") (service [yard] []) in
  calls (step ClickRefresh w) = calls w ∧
  toasts (step ClickRefresh w) = [refreshed] ∧
  screen (step ClickRefresh w) = NoChannelConfigured.
Proof.
  destruct (refresh_without_credentials (step (Mount "L0") (service [yard] [])) yard
              eq_refl eq_refl eq_refl eq_refl) as (Hc & Ht & _ & Hs).
  cbv zeta. split; [exact Hc|]. split; [exact Ht|]. rewrite Hs. reflexivity.
Defined.



(** When the route changes under the mounted view, the new timer runs the
    [fetchSensorData] of the render that saw the change, whose [location]
    is still the one shown before: the timer that replaces the old one
    polls with the previous location's credentials. *)
Theorem route_change_polls_previous_location w route_id h t :
  cleanup w = Some h →
  timers w = [t] →
  handle t = h →
  let w' := step (ChangeRoute route_id) w in
  timers w' = [{| handle := next_handle w; delay := 10000;
                  callback := FetchSensorData (Details.location w) |}] ∧
  drop (length (calls w')) (calls (step (Tick (next_handle w)) w'))
  = if has_credentials (Details.location w)
    then [Invoke "thingspeak-service" (latest_body (Details.location w))]
    else [].
Proof.
  intros Hu Ht Hh w'.
  assert (timers w' = [{| handle := next_handle w; delay := 10000;
                          callback := FetchSensorData (Details.location w) |}])
    as Ht'.
  { subst w'. cbn [step]. unfold exec, mbind, M_bind.
    destruct (run_cleanup_spec w) as (w1 & E & _ & _ & Hn1 & _ & Ht1). rewrite E.
    destruct (effect_spec route_id (Details.location w) w1)
      as (new & _ & _ & Ht2 & _).
    unfold exec in Ht2. rewrite Ht2, Ht1, Hu, Ht, Hn1.
    cbn [filter list_filter]. by rewrite decide_False by (intros ?; done). }
  split; [exact Ht'|]. by apply tick_polling.
Qed.

Lemma route_change_polls_previous_location_witness :
  let w := step (Mount "L1") (service [depot; harbor] []) in
  let w' := step (ChangeRoute "L2") w in
  Details.location w' = Some harbor ∧
  drop (length (calls w')) (calls (step (Tick 1) w'))
  = [Invoke "thingspeak-service" (latest_body (Some depot))].
Proof.
  destruct (route_change_polls_previous_location
              (step (Mount "L1") (service [depot; harbor] [])) "L2" 0
              {| handle := 0; delay := 10000; callback := FetchSensorData None |}
              eq_refl eq_refl eq_refl) as (_ & Hd).
  split; [reflexivity|exact Hd].
Defined.

End DetailsFacts.

(** ** The values the charts draw *)

Section ChartFacts.

Import Details.

Variable parseFloat : option Js.json → Js.number.
Variable toLocaleTimeString : option Js.json → string.






End ChartFacts.


